(** * AI-Zoom-Assistant: the streaming-session core of the frontend

    A shallow embedding of
      - [WebSocketService] (services/api.ts): the session transport and its
        string-keyed event emitter,
      - [useAudioRecorder] (hooks/useAudioRecorder.ts): capture life cycle and
        the level meter,
      - the parts of [App], [Header] and [MeetingPanel] that drive both,
      - [getMeetingStatus] (services/api.ts) and the poll and the 'status'
        subscriber of [MeetingPanel] that consume it, [blobToBase64] and the
        bars of [AudioVisualizer],
      - the Segmentation Buffer of the design document, whose code is not
        part of the frontend,
    together with the properties the design document states about them and
    further properties read off the code. *)

From stdpp Require Import gmap strings list fin_maps.
From Stdlib Require Import ZArith QArith Qminmax Lia Lqa.
From Stdlib Require Strings.Byte.

Set Default Proof Using "Type".
Open Scope Z_scope.
Open Scope stdpp_scope.

(** ** JavaScript values that cross the transport *)

(** What [JSON.parse] can return and what [JSON.stringify] accepts. *)
#[local] Unset Elimination Schemes.
Inductive json :=
| JNull
| JBool (b : bool)
| JNum (n : Q)
| JStr (s : string)
| JArr (items : list json)
| JObj (fields : list (string * json)).
#[local] Set Elimination Schemes.

(** The [data: any] argument of an emitted event: [null] for 'connected' and
    'disconnected', the DOM event for 'error', the parsed frame otherwise. *)
Inductive value :=
| VJson (j : json)
| VEvent.

Inductive exn :=
| SyntaxError                (* JSON.parse, new WebSocket *)
| TypeError                  (* property access on null *)
| Thrown (what : string).    (* anything a subscriber throws *)

(** ** Computations that may throw

    A method body is a function from the state it runs in to its completion
    (normal or abrupt) and the state it leaves behind. Mutations made before
    a [throw] stay, as in JavaScript. *)

Inductive Res (A : Type) :=
| Ok (a : A)
| Throw (e : exn).
Arguments Ok {A} a.
Arguments Throw {A} e.

Definition M (S A : Type) : Type := S → Res A * S.

Definition ret {S A} (a : A) : M S A := λ s, (Ok a, s).
Definition throw {S A} (e : exn) : M S A := λ s, (Throw e, s).
Definition bind {S A B} (m : M S A) (k : A → M S B) : M S B :=
  λ s, match m s with
       | (Ok a, s') => k a s'
       | (Throw e, s') => (Throw e, s')
       end.
Definition try_catch {S A} (body : M S A) (handler : exn → M S A) : M S A :=
  λ s, match body s with
       | (Ok a, s') => (Ok a, s')
       | (Throw e, s') => handler e s'
       end.
Definition get {S} : M S S := λ s, (Ok s, s).
Definition modify {S} (f : S → S) : M S () := λ s, (Ok (), f s).

#[global] Instance M_ret {S} : MRet (M S) := λ _ a, ret a.
#[global] Instance M_bind {S} : MBind (M S) := λ _ _ k m, bind m k.

Definition state_after {S A} (r : Res A * S) : S := r.2.

(** Unfolds the sequencing of computations down to plain functions. *)
Ltac unfold_m :=
  unfold mbind, mret, M_bind, M_ret, bind, ret, throw, try_catch, get, modify,
    state_after in *.

(** ** The browser objects the service talks to *)

Inductive ReadyState := CONNECTING | OPEN | CLOSING | CLOSED.

#[global] Instance ReadyState_eq_dec : EqDecision ReadyState.
Proof. solve_decision. Defined.

Inductive LogEntry :=
| Log (msg : string)
| Warn (msg : string)
| Error (msg : string).

(** [sockets]: every [WebSocket] object constructed so far, by index, with
    its [readyState]. Each of them carries the four callbacks that [connect]
    installs; they close over the service, not over the socket.
    [timers]: the [setTimeout] handles still pending; the only callback the
    service ever schedules is [connect].
    [wire]: the frames handed to [WebSocket.send], oldest first.
    [url_ok]: whether [new WebSocket(WS_BASE_URL + "/ws")] succeeds. *)
Record Browser := {
  sockets : list ReadyState;
  timers : gset positive;
  next_timer : positive;
  wire : list (nat * json);
  console : list LogEntry;
  url_ok : bool
}.

Record WebSocketService (Handler : Type) := {
  ws : option nat;
  reconnectTimer : option positive;
  messageHandlers : gmap string (list Handler)
}.
Arguments ws {Handler} _.
Arguments reconnectTimer {Handler} _.
Arguments messageHandlers {Handler} _.
Arguments Build_WebSocketService {Handler} _ _ _.

(** The whole state a method of the service can read or write: the service
    object, the browser, the rest of the program ([world], whatever the
    subscribers touch) and the record of subscriber invocations. *)
Record St (Handler W : Type) := {
  this : WebSocketService Handler;
  browser : Browser;
  world : W;
  invoked : list (Handler * value)
}.
Arguments this {Handler W} _.
Arguments browser {Handler W} _.
Arguments world {Handler W} _.
Arguments invoked {Handler W} _.
Arguments Build_St {Handler W} _ _ _ _.

(** The delay of the reconnect timer, in milliseconds. Time itself is not
    modelled: a pending timer expires when the browser says so. *)
Definition reconnectInterval : Z := 5000.

(** [Array.prototype.indexOf]: first position that is [===] to [x]. *)
Fixpoint indexOf {A} `{EqDecision A} (x : A) (l : list A) : option nat :=
  match l with
  | [] => None
  | y :: l' => if decide (x = y) then Some 0%nat else S <$> indexOf x l'
  end.

(** [{ type, ...data }]: a later key replaces an earlier one in place. *)
Fixpoint obj_set (k : string) (v : json) (o : list (string * json))
  : list (string * json) :=
  match o with
  | [] => [(k, v)]
  | (k', v') :: o' =>
      if decide (k = k') then (k, v) :: o' else (k', v') :: obj_set k v o'
  end.

Definition spread (base data : list (string * json)) : list (string * json) :=
  foldl (λ o kv, obj_set kv.1 kv.2 o) base data.

(** [data.type] for a parsed frame. The last duplicate key wins in
    [JSON.parse]; [None] is [undefined]. *)
Definition obj_get (k : string) (o : list (string * json)) : option json :=
  snd <$> last (filter (λ kv, kv.1 = k) o).

Definition get_type (data : json) : Res (option json) :=
  match data with
  | JNull => Throw TypeError
  | JObj fields => Ok (obj_get "type" fields)
  | _ => Ok None
  end.

(** ** WebSocketService *)

Section WebSocketService.
Context {Handler : Type} `{!EqDecision Handler} {W : Type}.

(** [handler(data)]: what a subscriber does to the rest of the program, and
    whether it returns or throws. Subscribers do not call back into the
    service. *)
Variable call : Handler → value → W → Res () * W.

(** [JSON.parse]; [None] when it throws [SyntaxError]. *)
Variable JSON_parse : string → option json.

Abbreviation State := (St Handler W).
Abbreviation Service := (WebSocketService Handler).

Definition set_this (f : Service → Service) (s : State) : State :=
  Build_St (f (this s)) (browser s) (world s) (invoked s).
Definition set_browser (f : Browser → Browser) (s : State) : State :=
  Build_St (this s) (f (browser s)) (world s) (invoked s).

Definition console_log (e : LogEntry) : M State () :=
  modify (set_browser (λ b,
    Build_Browser (sockets b) (timers b) (next_timer b) (wire b)
                  (console b ++ [e]) (url_ok b))).

Definition readyState (i : nat) (s : State) : option ReadyState :=
  sockets (browser s) !! i.

(** *** The emitter *)

(** One subscriber call: recorded, then run on the rest of the program. *)
Definition invoke (h : Handler) (data : value) : M State () :=
  λ s, let '(r, w) := call h data (world s) in
       (r, Build_St (this s) (browser s) w (invoked s ++ [(h, data)])).

(** [handlers.forEach(handler => handler(data))]: an exception leaves the
    loop. *)
Fixpoint forEach (handlers : list Handler) (data : value) : M State () :=
  match handlers with
  | [] => mret ()
  | h :: rest => invoke h data ;; forEach rest data
  end.

Definition emit (event : string) (data : value) : M State () :=
  s ← get;
  match messageHandlers (this s) !! event with
  | Some handlers => forEach handlers data
  | None => mret ()
  end.

(** [this.emit(data.type, data)] where [data.type] is whatever the frame
    carries: the keys of [messageHandlers] are strings, so [Map.get] finds
    nothing for [undefined] or for a key that is not a string. *)
Definition emit_any (event : option json) (data : value) : M State () :=
  match event with
  | Some (JStr e) => emit e data
  | _ => mret ()
  end.

Definition on (event : string) (handler : Handler) : M State () :=
  modify (set_this (λ t,
    let m := messageHandlers t in
    let m1 := match m !! event with
              | None => <[event := []]> m
              | Some _ => m
              end in
    Build_WebSocketService (ws t) (reconnectTimer t)
      (alter (λ hs, hs ++ [handler]) event m1))).

Definition off (event : string) (handler : Handler) : M State () :=
  modify (set_this (λ t,
    let m := messageHandlers t in
    match m !! event with
    | Some handlers =>
        match indexOf handler handlers with
        | Some index =>
            Build_WebSocketService (ws t) (reconnectTimer t)
              (<[event := delete index handlers]> m)
        | None => t
        end
    | None => t
    end)).

(** *** Timers *)

Definition clearReconnectTimer : M State () :=
  s ← get;
  match reconnectTimer (this s) with
  | Some id =>
      modify (set_browser (λ b,
        Build_Browser (sockets b) (timers b ∖ {[id]}) (next_timer b)
                      (wire b) (console b) (url_ok b))) ;;
      modify (set_this (λ t,
        Build_WebSocketService (ws t) None (messageHandlers t)))
  | None => mret ()
  end.

(** [window.setTimeout(() => this.connect(), this.reconnectInterval)]. *)
Definition scheduleReconnect : M State () :=
  s ← get;
  match reconnectTimer (this s) with
  | None =>
      let id := next_timer (browser s) in
      modify (set_browser (λ b,
        Build_Browser (sockets b) (timers b ∪ {[id]}) (Pos.succ id)
                      (wire b) (console b) (url_ok b))) ;;
      modify (set_this (λ t,
        Build_WebSocketService (ws t) (Some id) (messageHandlers t)))
  | Some _ => mret ()
  end.

(** *** Connection life cycle *)

(** [new WebSocket(url)]: a fresh object in [CONNECTING], or [SyntaxError]. *)
Definition new_WebSocket : M State nat :=
  s ← get;
  if url_ok (browser s) then
    let i := length (sockets (browser s)) in
    modify (set_browser (λ b,
      Build_Browser (sockets b ++ [CONNECTING]) (timers b) (next_timer b)
                    (wire b) (console b) (url_ok b))) ;;
    mret i
  else throw SyntaxError.

Definition connect : M State () :=
  try_catch
    (i ← new_WebSocket;
     modify (set_this (λ t,
       Build_WebSocketService (Some i) (reconnectTimer t) (messageHandlers t))))
    (λ _, console_log (Error "Error creating WebSocket:") ;;
          scheduleReconnect).

(** [WebSocket.close()]: starts the closing handshake; the [close] event
    comes later, from the browser. *)
Definition ws_close (i : nat) : M State () :=
  modify (set_browser (λ b,
    Build_Browser
      (match sockets b !! i with
       | Some CONNECTING | Some OPEN => <[i := CLOSING]> (sockets b)
       | _ => sockets b
       end)
      (timers b) (next_timer b) (wire b) (console b) (url_ok b))).

Definition disconnect : M State () :=
  clearReconnectTimer ;;
  s ← get;
  match ws (this s) with
  | Some i =>
      ws_close i ;;
      modify (set_this (λ t,
        Build_WebSocketService None (reconnectTimer t) (messageHandlers t)))
  | None => mret ()
  end.

Definition isConnected (s : State) : bool :=
  match ws (this s) with
  | Some i => bool_decide (readyState i s = Some OPEN)
  | None => false
  end.

Definition ws_send (i : nat) (frame : json) : M State () :=
  modify (set_browser (λ b,
    Build_Browser (sockets b) (timers b) (next_timer b)
                  (wire b ++ [(i, frame)]) (console b) (url_ok b))).

Definition send (type : string) (data : list (string * json)) : M State () :=
  s ← get;
  match ws (this s) with
  | Some i =>
      if bool_decide (readyState i s = Some OPEN)
      then ws_send i (JObj (spread [("type", JStr type)] data))
      else console_log (Warn "WebSocket is not connected")
  | None => console_log (Warn "WebSocket is not connected")
  end.

Definition sendAudioChunk (audioData : string) (timestamp : option Z)
  : M State () :=
  send "audio_chunk"
    (("data", JStr audioData) ::
     match timestamp with
     | Some t => [("timestamp", JNum (inject_Z t))]
     | None => []        (* JSON.stringify drops an undefined property *)
     end).

Definition sendControl (action : string) : M State () :=
  send "control" [("action", JStr action)].

(** *** The callbacks [connect] installs on every socket *)

Definition onopen : M State () :=
  console_log (Log "WebSocket connected") ;;
  clearReconnectTimer ;;
  emit "connected" (VJson JNull).

Definition onmessage (frame : string) : M State () :=
  try_catch
    (match JSON_parse frame with
     | None => throw SyntaxError
     | Some data =>
         match get_type data with
         | Throw e => throw e
         | Ok type => emit_any type (VJson data)
         end
     end)
    (λ _, console_log (Error "Error parsing WebSocket message:")).

Definition onerror : M State () :=
  console_log (Error "WebSocket error:") ;;
  emit "error" VEvent.

Definition onclose : M State () :=
  console_log (Log "WebSocket disconnected") ;;
  emit "disconnected" (VJson JNull) ;;
  scheduleReconnect.

Definition reconnect_callback : M State () :=
  console_log (Log "Attempting to reconnect WebSocket...") ;;
  connect.

(** The subscribers of [event], in registration order. *)
Definition handlers_of (event : string) (s : State) : list Handler :=
  default [] (messageHandlers (this s) !! event).

(** The subscribers a dispatch reaches: the registered ones up to and
    including the first that throws. *)
Fixpoint reached (handlers : list Handler) (data : value) (w : W)
  : list Handler :=
  match handlers with
  | [] => []
  | h :: rest =>
      h :: match call h data w with
           | (Ok _, w') => reached rest data w'
           | (Throw _, _) => []
           end
  end.

(** The calls a dispatch adds to the record of invocations. *)
Definition calls_of (event : string) (data : value) (s : State)
  : list (Handler * value) :=
  drop (length (invoked s)) (invoked (state_after (emit event data s))).


(** A dropped message as the design document has it: the caller learns of
    the drop through the 'error' event, so [send] reaches every subscriber of
    'error'. *)
Definition reports_drop (type : string) (data : list (string * json))
    (s : State) : Prop :=
  ∀ h, h ∈ handlers_of "error" s →
       h ∈ (drop (length (invoked s))
              (invoked (state_after (send type data s)))).*1.

(** Two states that differ at most in what the console shows. *)
Definition same_but_console (s1 s2 : State) : Prop :=
  this s1 = this s2 ∧
  sockets (browser s1) = sockets (browser s2) ∧
  timers (browser s1) = timers (browser s2) ∧
  next_timer (browser s1) = next_timer (browser s2) ∧
  wire (browser s1) = wire (browser s2) ∧
  url_ok (browser s1) = url_ok (browser s2) ∧
  world s1 = world s2 ∧
  invoked s1 = invoked s2.

(** A computation that never looks at the console. *)
Definition console_blind {A} (m : M State A) : Prop :=
  ∀ s1 s2, same_but_console s1 s2 →
    (m s1).1 = (m s2).1 ∧ same_but_console (m s1).2 (m s2).2.

(** A computation that puts nothing on the wire and keeps a property [P] of
    the rest of the program. *)
Definition leaves_wire (P : W → Prop) {A} (m : M State A) : Prop :=
  ∀ s, P (world s) →
       wire (browser (m s).2) = wire (browser s) ∧ P (world (m s).2).

(** The guard that callers put in front of [connect] (MeetingPanel):
    [if (!wsService.isConnected()) wsService.connect()]. *)
Definition connect_if_needed : M State () :=
  s ← get;
  if isConnected s then mret () else connect.



(** *** What the browser does to the service

    Each event is one task of the event loop: the socket changes state, then
    the installed callback runs to completion. An exception that escapes a
    callback is reported by the browser and ends the task; what the callback
    did before stays. An event that cannot happen in the current state
    ([None]) is not delivered. *)

Inductive BrowserEvent :=
| EvOpen (i : nat)                      (* handshake done *)
| EvMessage (i : nat) (frame : string)  (* a text frame arrived *)
| EvError (i : nat)                     (* the connection failed *)
| EvClose (i : nat)                     (* the connection is gone *)
| EvTimeout (id : positive).            (* a pending timer expired *)

Definition set_readyState (i : nat) (r : ReadyState) (s : State) : State :=
  set_browser (λ b,
    Build_Browser (<[i := r]> (sockets b)) (timers b) (next_timer b)
                  (wire b) (console b) (url_ok b)) s.

Definition expire (id : positive) (s : State) : State :=
  set_browser (λ b,
    Build_Browser (sockets b) (timers b ∖ {[id]}) (next_timer b)
                  (wire b) (console b) (url_ok b)) s.

Definition task (callback : M State ()) (s : State) : State :=
  state_after (callback s).

Definition deliver (ev : BrowserEvent) (s : State) : option State :=
  match ev with
  | EvOpen i =>
      match readyState i s with
      | Some CONNECTING => Some (task onopen (set_readyState i OPEN s))
      | _ => None
      end
  | EvMessage i frame =>
      match readyState i s with
      | Some OPEN => Some (task (onmessage frame) s)
      | _ => None
      end
  | EvError i =>
      match readyState i s with
      | Some _ => Some (task onerror s)
      | None => None
      end
  | EvClose i =>
      match readyState i s with
      | Some CLOSED | None => None
      | Some _ => Some (task onclose (set_readyState i CLOSED s))
      end
  | EvTimeout id =>
      if decide (id ∈ timers (browser s))
      then Some (task reconnect_callback (expire id s))
      else None
  end.

(** What can happen to a service: a caller uses its public interface, or
    the browser delivers an event. *)
Inductive Action :=
| Connect
| Disconnect
| Send (type : string) (data : list (string * json))
| On (event : string) (handler : Handler)
| Off (event : string) (handler : Handler)
| Event (ev : BrowserEvent).

Definition step (a : Action) (s : State) : State :=
  match a with
  | Connect => state_after (connect s)
  | Disconnect => state_after (disconnect s)
  | Send type data => state_after (send type data s)
  | On event handler => state_after (on event handler s)
  | Off event handler => state_after (off event handler s)
  | Event ev => default s (deliver ev s)
  end.

Definition run (actions : list Action) (s : State) : State :=
  foldl (λ s a, step a s) s actions.

(** The service as [new WebSocketService()] leaves it, in a browser that has
    created no socket and no timer yet. *)
Definition fresh (w : W) : State :=
  Build_St (Build_WebSocketService None None ∅)
           (Build_Browser [] ∅ 1%positive [] [] true) w [].

End WebSocketService.

(** ** Concrete subscribers and frames used to exercise the service *)

Module Scenario.

(** Subscriber 1 throws, every other subscriber returns; the rest of the
    program counts the completed calls. *)
Definition call (h : nat) (_ : value) (w : nat) : Res () * nat :=
  if decide (h = 1%nat) then (Throw (Thrown "subscriber failed"), w)
  else (Ok (), S w).

(** A parser that knows three frames and rejects everything else. *)
Definition JSON_parse (frame : string) : option json :=
  if decide (frame = "null") then Some JNull
  else if decide (frame = "{}") then Some (JObj [])
  else if decide (frame = "[]") then Some (JArr [])
  else None.

Definition subscribed : St nat nat :=
  run call JSON_parse
    [On "status" 1%nat; On "status" 2%nat; On "error" 3%nat] (fresh 0%nat).

Definition connecting : St nat nat :=
  run call JSON_parse [Connect] subscribed.

Definition opened : St nat nat :=
  run call JSON_parse [Connect; Event (EvOpen 0)] subscribed.

(** A session that the caller ends: connect, handshake done, disconnect. *)
Definition closed_by_caller : St nat nat :=
  run call JSON_parse [Connect; Event (EvOpen 0); Disconnect] (fresh 0%nat).

(** A caller that gives up while the handshake is still in flight. *)
Definition abandoned : St nat nat :=
  run call JSON_parse [Connect; Disconnect] (fresh 0%nat).

End Scenario.

(** ** useAudioRecorder *)

(** The callback the hook is given: App's [handleAudioData], a closure over
    the [isConnected] and [isMuted] of the render that created it. *)
Record AudioDataCallback := {
  cb_isConnected : bool;
  cb_isMuted : bool
}.

Module Recorder.

Inductive RecordingState := inactive | recording | paused.
Inductive AudioContextState := suspended | running | closed.
Inductive TrackState := live | ended.

(** A JavaScript number: an exact rational here, or [NaN]. *)
Inductive number :=
| Num (q : Q)
| NaN.

(** A [MediaRecorder] with what its [ondataavailable] closed over when
    [startRecording] installed it. *)
Record MediaRecorder := {
  state : RecordingState;
  onAudioData : AudioDataCallback;
  closure_isPaused : bool
}.

(** The media objects of the browser, by index of creation; [frames] are the
    animation frames requested and neither run nor cancelled. *)
Record Media := {
  recorders : list MediaRecorder;
  contexts : list AudioContextState;
  streams : list (list TrackState);
  frames : gset positive;
  next_frame : positive
}.

(** [useRef]: each is an index into the lists above, or [null]. The analyser
    and the source node live in the audio context they were created from. *)
Record Refs := {
  mediaRecorderRef : option nat;
  audioContextRef : option nat;
  analyserRef : option nat;
  sourceRef : option nat;
  streamRef : option nat;
  animationFrameRef : option positive
}.

(** [useState] *)
Record Hook := {
  isRecording : bool;
  isPaused : bool;
  audioLevel : number;
  error : option string
}.

Record State := {
  hook : Hook;
  refs : Refs;
  media : Media
}.

Definition no_refs : Refs := Build_Refs None None None None None None.

(** The hook at its first render, in a browser without media objects. *)
Definition initial : State :=
  Build_State (Build_Hook false false (Num 0) None) no_refs
              (Build_Media [] [] [] ∅ 1%positive).

Definition set_hook (f : Hook → Hook) (s : State) : State :=
  Build_State (f (hook s)) (refs s) (media s).
Definition set_refs (f : Refs → Refs) (s : State) : State :=
  Build_State (hook s) (f (refs s)) (media s).
Definition set_media (f : Media → Media) (s : State) : State :=
  Build_State (hook s) (refs s) (f (media s)).

Definition setIsRecording (b : bool) : State → State :=
  set_hook (λ h, Build_Hook b (isPaused h) (audioLevel h) (error h)).
Definition setIsPaused (b : bool) : State → State :=
  set_hook (λ h, Build_Hook (isRecording h) b (audioLevel h) (error h)).
Definition setAudioLevel (x : number) : State → State :=
  set_hook (λ h, Build_Hook (isRecording h) (isPaused h) x (error h)).
Definition setError (e : option string) : State → State :=
  set_hook (λ h, Build_Hook (isRecording h) (isPaused h) (audioLevel h) e).

Definition set_recorder_state (r : nat) (st : RecordingState) : State → State :=
  set_media (λ m,
    Build_Media
      (alter (λ mr, Build_MediaRecorder st (onAudioData mr) (closure_isPaused mr))
             r (recorders m))
      (contexts m) (streams m) (frames m) (next_frame m)).

Definition recorder_state (r : nat) (s : State) : option RecordingState :=
  state <$> recorders (media s) !! r.

(** The [onAudioData] closures held by the recorders, in order of creation. *)
Definition callbacks (s : State) : list AudioDataCallback :=
  onAudioData <$> recorders (media s).

(** *** The level meter *)

(** [dataArray.reduce((acc, val) => acc + val, 0)] over a [Uint8Array]. *)
Definition sum_bytes (dataArray : list Byte.byte) : Z :=
  foldl (λ acc val, acc + Z.of_N (Byte.to_N val)) 0 dataArray.

(** [sum / dataArray.length]; [0 / 0] is [NaN]. *)
Definition average (dataArray : list Byte.byte) : number :=
  match dataArray with
  | [] => NaN
  | _ => Num (inject_Z (sum_bytes dataArray)
              / inject_Z (Z.of_nat (length dataArray)))
  end.

(** [Math.min(100, (average / 255) * 100)] *)
Definition normalizedLevel (dataArray : list Byte.byte) : number :=
  match average dataArray with
  | Num a => Num (Qmin 100 (a / 255 * 100))
  | NaN => NaN
  end.

(** [analyser.fftSize = 256], so [frequencyBinCount] is 128. *)
Definition frequencyBinCount : nat := 128.

Definition requestAnimationFrame (s : State) : State :=
  let id := next_frame (media s) in
  set_refs (λ r,
    Build_Refs (mediaRecorderRef r) (audioContextRef r) (analyserRef r)
               (sourceRef r) (streamRef r) (Some id))
  (set_media (λ m,
    Build_Media (recorders m) (contexts m) (streams m)
                (frames m ∪ {[id]}) (Pos.succ id)) s).

Definition cancelAnimationFrame (id : positive) : State → State :=
  set_media (λ m,
    Build_Media (recorders m) (contexts m) (streams m)
                (frames m ∖ {[id]}) (next_frame m)).

(** One call of [calculateAudioLevel]. [isRecording] and [isPaused] are the
    values the closure was created with ([useCallback] with these two
    dependencies); [dataArray] is what [getByteFrequencyData] writes. *)
Definition calculateAudioLevel (isRecording isPaused : bool)
    (dataArray : list Byte.byte) (s : State) : State :=
  match analyserRef (refs s) with
  | None => s
  | Some _ =>
      let s1 := setAudioLevel (normalizedLevel dataArray) s in
      if isRecording && negb isPaused then requestAnimationFrame s1 else s1
  end.

(** *** Capture life cycle *)

(** The four guarded calls at the head of [stopRecording], in order. *)

(* Stop media recorder *)
Definition stop_media_recorder (s : State) : State :=
  match mediaRecorderRef (refs s) with
  | Some r =>
      match recorder_state r s with
      | Some inactive | None => s
      | Some _ => set_recorder_state r inactive s
      end
  | None => s
  end.

(* Stop all tracks *)
Definition stop_all_tracks (s : State) : State :=
  match streamRef (refs s) with
  | Some i =>
      set_media (λ m,
        Build_Media (recorders m) (contexts m)
          (alter (λ tracks, (λ _, ended) <$> tracks) i (streams m))
          (frames m) (next_frame m)) s
  | None => s
  end.

(* Close audio context *)
Definition close_audio_context (s : State) : State :=
  match audioContextRef (refs s) with
  | Some c =>
      match contexts (media s) !! c with
      | Some closed | None => s
      | Some _ =>
          set_media (λ m,
            Build_Media (recorders m) (<[c := closed]> (contexts m))
              (streams m) (frames m) (next_frame m)) s
      end
  | None => s
  end.

(* Cancel animation frame *)
Definition cancel_pending_frame (s : State) : State :=
  match animationFrameRef (refs s) with
  | Some id => cancelAnimationFrame id s
  | None => s
  end.

Definition stopRecording (s : State) : State :=
  let s4 := cancel_pending_frame
              (close_audio_context (stop_all_tracks (stop_media_recorder s))) in
  (* Reset refs *)
  let s5 := set_refs (λ _, no_refs) s4 in
  (* Reset state *)
  setAudioLevel (Num 0) (setIsPaused false (setIsRecording false s5)).

Definition pauseRecording (s : State) : State :=
  match mediaRecorderRef (refs s) with
  | Some r =>
      match recorder_state r s with
      | Some recording =>
          let s1 := setIsPaused true (set_recorder_state r paused s) in
          match animationFrameRef (refs s1) with
          | Some id => cancelAnimationFrame id s1
          | None => s1
          end
      | _ => s
      end
  | None => s
  end.

(** [resumeRecording] calls [calculateAudioLevel] of its own render. *)
Definition resumeRecording (isRecording isPaused : bool)
    (dataArray : list Byte.byte) (s : State) : State :=
  match mediaRecorderRef (refs s) with
  | Some r =>
      match recorder_state r s with
      | Some paused =>
          calculateAudioLevel isRecording isPaused dataArray
            (setIsPaused false (set_recorder_state r recording s))
      | _ => s
      end
  | None => s
  end.

(** [startRecording] of one render: what it closed over. *)
Record StartRecording := {
  sr_onAudioData : AudioDataCallback;
  sr_isRecording : bool;
  sr_isPaused : bool
}.

(** Where the part of [startRecording] after [getUserMedia] can end. *)
Inductive StartOutcome :=
| AudioContextFails      (* new AudioContext throws *)
| MediaRecorderFails     (* new MediaRecorder or start() throws *)
| Started.

(** Up to the [await]: [setError(null)], then the permission request. *)
Definition startRecording_begin : State → State := setError None.

(** [getUserMedia] rejected. *)
Definition startRecording_denied (msg : string) : State → State :=
  setError (Some msg).

(** [getUserMedia] resolved with a stream of [tracks] live tracks. *)
Definition startRecording_granted (c : StartRecording) (tracks : nat)
    (outcome : StartOutcome) (dataArray : list Byte.byte) (s : State) : State :=
  let stream := length (streams (media s)) in
  let s1 :=
    set_refs (λ r,
      Build_Refs (mediaRecorderRef r) (audioContextRef r) (analyserRef r)
                 (sourceRef r) (Some stream) (animationFrameRef r))
    (set_media (λ m,
      Build_Media (recorders m) (contexts m)
                  (streams m ++ [replicate tracks live])
                  (frames m) (next_frame m)) s) in
  match outcome with
  | AudioContextFails => setError (Some "Failed to start recording") s1
  | _ =>
      let ctx := length (contexts (media s1)) in
      let s2 :=
        set_refs (λ r,
          Build_Refs (mediaRecorderRef r) (Some ctx) (Some ctx) (Some ctx)
                     (streamRef r) (animationFrameRef r))
        (set_media (λ m,
          Build_Media (recorders m) (contexts m ++ [running]) (streams m)
                      (frames m) (next_frame m)) s1) in
      match outcome with
      | Started =>
          let rec := length (recorders (media s2)) in
          let s3 :=
            set_refs (λ r,
              Build_Refs (Some rec) (audioContextRef r) (analyserRef r)
                         (sourceRef r) (streamRef r) (animationFrameRef r))
            (set_media (λ m,
              Build_Media
                (recorders m ++
                 [Build_MediaRecorder recording (sr_onAudioData c) (sr_isPaused c)])
                (contexts m) (streams m) (frames m) (next_frame m)) s2) in
          calculateAudioLevel (sr_isRecording c) (sr_isPaused c) dataArray
            (setIsRecording true s3)
      | _ => setError (Some "Failed to start recording") s2
      end
  end.

(** [mediaRecorder.onerror]: report, then [stopRecording]. *)
Definition recorder_onerror (s : State) : State :=
  stopRecording (setError (Some "Recording error occurred") s).

(** What can happen to the hook. *)
Inductive Action :=
| StartBegin
| StartDenied (msg : string)
| StartGranted (c : StartRecording) (tracks : nat) (outcome : StartOutcome)
               (dataArray : list Byte.byte)
| Stop
| Pause
| Resume (isRecording isPaused : bool) (dataArray : list Byte.byte)
| Frame (id : positive) (dataArray : list Byte.byte)
| RecorderError.

Definition step (a : Action) (s : State) : State :=
  match a with
  | StartBegin => startRecording_begin s
  | StartDenied msg => startRecording_denied msg s
  | StartGranted c tracks outcome dataArray =>
      startRecording_granted c tracks outcome dataArray s
  | Stop => stopRecording s
  | Pause => pauseRecording s
  | Resume r p dataArray => resumeRecording r p dataArray s
  | Frame id dataArray =>
      if decide (id ∈ frames (media s))
      then calculateAudioLevel true false dataArray
             (set_media (λ m,
                Build_Media (recorders m) (contexts m) (streams m)
                            (frames m ∖ {[id]}) (next_frame m)) s)
      else s
  | RecorderError => recorder_onerror s
  end.

Definition run (actions : list Action) (s : State) : State :=
  foldl (λ s a, step a s) s actions.

(** What the visualizer is given besides the level (App.tsx):
    [isActive={isRecording && !isMuted}]. *)
Definition isActive (isMuted : bool) (s : State) : bool :=
  isRecording (hook s) && negb isMuted.

(** [x] is the number [q]. *)
Definition level_is (x : number) (q : Q) : Prop :=
  match x with
  | Num a => (a == q)%Q
  | NaN => False
  end.

Definition in_range (x : number) : Prop :=
  match x with
  | Num a => (0 <= a)%Q ∧ (a <= 100)%Q
  | NaN => False
  end.

Definition all_zero (dataArray : list Byte.byte) : Prop :=
  Forall (λ b, Byte.to_N b = 0%N) dataArray.

(** The level meter as the design document has it: a frame of zeros gives
    level 0 and [isActive = false]. *)
Definition silent_frame_inactive (isMuted : bool) (dataArray : list Byte.byte)
    (s : State) : Prop :=
  all_zero dataArray →
  let s' := calculateAudioLevel (isRecording (hook s)) (isPaused (hook s))
              dataArray s in
  level_is (audioLevel (hook s')) 0 ∧ isActive isMuted s' = false.


(** With no analyser the hook is not recording and shows level 0. *)
Definition quiet_without_analyser (s : State) : Prop :=
  analyserRef (refs s) = None →
  isRecording (hook s) = false ∧ audioLevel (hook s) = Num 0.

(** A running capture, as [startRecording] leaves it when all goes well. *)
Definition capturing : State :=
  run [StartBegin;
       StartGranted (Build_StartRecording (Build_AudioDataCallback false false)
                       false false)
                    1 Started (replicate frequencyBinCount Byte.x00)]
      initial.

End Recorder.

(** ** App: the session controller *)

Module App.

Inductive ConnectionStatus := connected | disconnected | connecting.

(** [useState] of [App], as far as the session is concerned (the message
    list, the system status and the toasts play no part). *)
Record React := {
  isConnected : bool;
  connectionStatus : ConnectionStatus;
  isMuted : bool
}.

(** An [await] or a timer that has not completed yet, with the values its
    continuation closed over: those of the render whose handler started it. *)
Inductive Pending :=
| AwaitStartSession (isMuted : bool) (start : Recorder.StartRecording)
| AwaitStopSession (isRecording : bool)
| AwaitMute (isRecording : bool)
| AwaitUnmute (isConnected isRecording : bool) (start : Recorder.StartRecording)
| AwaitTimeout (isMuted : bool) (start : Recorder.StartRecording)
| AwaitGetUserMedia (start : Recorder.StartRecording)
| AwaitBase64 (cb : AudioDataCallback) (base64 : string).

(** [handed]: the chunks the recorder produced and passed to [onAudioData],
    oldest first. *)
Record World := {
  react : React;
  recorder : Recorder.State;
  pending : list Pending;
  renders : nat;
  now : Z;
  handed : list (AudioDataCallback * string)
}.

(** The functions [App] and [MeetingPanel] subscribe; [Anonymous] is the
    [() => {}] that the cleanup of [App]'s effect passes to [off]. *)
Inductive Subscriber :=
| OnConnected
| OnDisconnected (isRecording : bool)
| OnError
| OnTranscriptUpdate
| OnAiResponse
| OnStatus
| OnControlResponse
| OnMeetingStatus
| Anonymous.

#[global] Instance Subscriber_eq_dec : EqDecision Subscriber.
Proof. solve_decision. Defined.

(** A function object: what it does and the render that created it. *)
Definition Handler : Type := nat * Subscriber.

Abbreviation Total := (St Handler World).

Definition set_react (f : React → React) (w : World) : World :=
  Build_World (f (react w)) (recorder w) (pending w) (renders w) (now w)
              (handed w).
Definition set_recorder (f : Recorder.State → Recorder.State) (w : World)
  : World :=
  Build_World (react w) (f (recorder w)) (pending w) (renders w) (now w)
              (handed w).
Definition set_pending (f : list Pending → list Pending) (w : World) : World :=
  Build_World (react w) (recorder w) (f (pending w)) (renders w) (now w)
              (handed w).

Definition setIsConnected (b : bool) : World → World :=
  set_react (λ r, Build_React b (connectionStatus r) (isMuted r)).
Definition setConnectionStatus (c : ConnectionStatus) : World → World :=
  set_react (λ r, Build_React (isConnected r) c (isMuted r)).
Definition setIsMuted (b : bool) : World → World :=
  set_react (λ r, Build_React (isConnected r) (connectionStatus r) b).

Definition await (p : Pending) : World → World :=
  set_pending (λ l, l ++ [p]).

(** [handleStatusUpdate] of [MeetingPanel] calls [newStatus.startsWith] when
    [data.status] is truthy and matches no case of its [switch]: a
    [TypeError] unless it is a string. *)
Definition status_is_truthy_non_string (data : value) : bool :=
  match data with
  | VJson (JObj fields) =>
      match obj_get "status" fields with
      | Some (JBool b) => b
      | Some (JNum n) => negb (Qeq_bool n 0)
      | Some (JArr _) | Some (JObj _) => true
      | _ => false
      end
  | _ => false
  end.

(** [handler(data)] for the subscribers above. The other subscribers only
    read properties of the frame and update state that is left out here. *)
Definition call (h : Handler) (data : value) (w : World) : Res () * World :=
  match h.2 with
  | OnConnected =>
      (Ok (), setConnectionStatus connected (setIsConnected true w))
  | OnDisconnected isRecording =>
      let w1 := setConnectionStatus disconnected (setIsConnected false w) in
      (Ok (), if isRecording then set_recorder Recorder.stopRecording w1 else w1)
  | OnMeetingStatus =>
      if status_is_truthy_non_string data then (Throw TypeError, w)
      else (Ok (), w)
  | _ => (Ok (), w)
  end.

Definition in_world (f : World → World) (s : Total) : Total :=
  Build_St (this s) (browser s) (f (world s)) (invoked s).

(** *** Effects *)

Definition events : list string :=
  ["connected"; "disconnected"; "error"; "transcript_update"; "ai_response";
   "status"; "control_response"].

(** The effect of [App] (dependencies [isRecording, stopRecording], the
    second of which is new on every render): its cleanup un-subscribes
    functions that were never subscribed, then it subscribes again. *)
Definition effect_cleanup (s : Total) : Total :=
  foldl (λ s e, state_after (off e (renders (world s), Anonymous) s)) s events.

Definition effect (s : Total) : Total :=
  let n := renders (world s) in
  let isRecording := Recorder.isRecording (Recorder.hook (recorder (world s))) in
  foldl (λ s (eh : string * Subscriber),
           state_after (on eh.1 (n, eh.2) s)) s
    [("connected", OnConnected);
     ("disconnected", OnDisconnected isRecording);
     ("error", OnError);
     ("transcript_update", OnTranscriptUpdate);
     ("ai_response", OnAiResponse);
     ("status", OnStatus);
     ("control_response", OnControlResponse)].

(** The effect of [MeetingPanel], once, when it mounts. *)
Definition meeting_panel_effect (s : Total) : Total :=
  state_after (connect_if_needed
    (state_after (on "status" (0%nat, OnMeetingStatus) s))).

Definition render (s : Total) : Total :=
  effect (in_world (λ w,
    Build_World (react w) (recorder w) (pending w) (S (renders w)) (now w)
                (handed w)) (effect_cleanup s)).

(** *** Handlers of one render *)

Definition startRecording_of (w : World) : Recorder.StartRecording :=
  Recorder.Build_StartRecording
    (Build_AudioDataCallback (isConnected (react w)) (isMuted (react w)))
    (Recorder.isRecording (Recorder.hook (recorder w)))
    (Recorder.isPaused (Recorder.hook (recorder w))).

Definition handleAudioData (cb : AudioDataCallback) (audioData : string)
    (s : Total) : Total :=
  if cb_isConnected cb && negb (cb_isMuted cb)
  then state_after (sendAudioChunk audioData (Some (now (world s))) s)
  else s.

(** Up to the first [await]. *)
Definition handleToggleConnection (s : Total) : Total :=
  let w := world s in
  if isConnected (react w)
  then in_world (await (AwaitStopSession
                   (Recorder.isRecording (Recorder.hook (recorder w))))) s
  else in_world (λ w, await (AwaitStartSession (isMuted (react w))
                               (startRecording_of w))
                        (setConnectionStatus connecting w)) s.

Definition handleToggleMute (s : Total) : Total :=
  let w := world s in
  if isMuted (react w)
  then in_world (await (AwaitUnmute (isConnected (react w))
                   (Recorder.isRecording (Recorder.hook (recorder w)))
                   (startRecording_of w))) s
  else in_world (await (AwaitMute
                   (Recorder.isRecording (Recorder.hook (recorder w))))) s.

Definition startRecording (start : Recorder.StartRecording) : Total → Total :=
  in_world (λ w, await (AwaitGetUserMedia start)
                   (set_recorder Recorder.startRecording_begin w)).

(** What runs when a pending [await] or timer completes. *)
Definition continue (p : Pending) (ok : bool) (s : Total) : Total :=
  match p with
  | AwaitStartSession isMuted start =>
      if ok
      then in_world (await (AwaitTimeout isMuted start))
             (state_after (connect s))
      else in_world (setConnectionStatus disconnected) s
  | AwaitStopSession isRecording =>
      if ok
      then let s1 := state_after (disconnect s) in
           if isRecording
           then in_world (set_recorder Recorder.stopRecording) s1
           else s1
      else s
  | AwaitMute isRecording =>
      if ok
      then let s1 := in_world (setIsMuted true) s in
           if isRecording
           then in_world (set_recorder Recorder.stopRecording) s1
           else s1
      else s
  | AwaitUnmute isConnected isRecording start =>
      if ok
      then let s1 := in_world (setIsMuted false) s in
           if isConnected && negb isRecording
           then startRecording start s1
           else s1
      else s
  | AwaitTimeout isMuted start =>
      if negb isMuted then startRecording start s else s
  | AwaitGetUserMedia start => s
  | AwaitBase64 cb base64 =>
      if ok
      then handleAudioData cb base64
             (in_world (λ w,
                Build_World (react w) (recorder w) (pending w) (renders w)
                            (now w) (handed w ++ [(cb, base64)])) s)
      else s
  end.

(** [ondataavailable] of recorder [r]:
    [if (event.data.size > 0 && !isPaused) ...blobToBase64...]. *)
Definition ondataavailable (r : nat) (size : nat) (base64 : string)
    (s : Total) : Total :=
  match Recorder.recorders (Recorder.media (recorder (world s))) !! r with
  | Some mr =>
      if bool_decide (0 < size)%nat && negb (Recorder.closure_isPaused mr)
      then in_world (await (AwaitBase64 (Recorder.onAudioData mr) base64)) s
      else s
  | None => s
  end.

(** What can happen to the application. *)
Inductive Action :=
| ClickToggleConnection
| ClickToggleMute
| Render
| Settle (k : nat) (ok : bool)
| GetUserMedia (k : nat)
    (result : option (nat * Recorder.StartOutcome * list Byte.byte))
| DataAvailable (r : nat) (size : nat) (base64 : string)
| AnimationFrame (id : positive) (dataArray : list Byte.byte)
| RecorderFails
| Clock (t : Z)
| Socket (ev : BrowserEvent).

Section Step.
Variable JSON_parse : string → option json.

Definition step (a : Action) (s : Total) : Total :=
  match a with
  | ClickToggleConnection => handleToggleConnection s
  | ClickToggleMute =>
      (* Header: the mute button is [disabled={!isConnected}] *)
      if isConnected (react (world s)) then handleToggleMute s else s
  | Render => render s
  | Settle k ok =>
      match pending (world s) !! k with
      | Some (AwaitGetUserMedia _) | None => s
      | Some p => continue p ok (in_world (set_pending (delete k)) s)
      end
  | GetUserMedia k result =>
      match pending (world s) !! k with
      | Some (AwaitGetUserMedia start) =>
          in_world (λ w,
            set_recorder
              match result with
              | Some (tracks, outcome, dataArray) =>
                  Recorder.startRecording_granted start tracks outcome dataArray
              | None => Recorder.startRecording_denied "Permission denied"
              end
              (set_pending (delete k) w)) s
      | _ => s
      end
  | DataAvailable r size base64 => ondataavailable r size base64 s
  | AnimationFrame id dataArray =>
      in_world (set_recorder (Recorder.step (Recorder.Frame id dataArray))) s
  | RecorderFails =>
      in_world (set_recorder Recorder.recorder_onerror) s
  | Clock t =>
      in_world (λ w,
        Build_World (react w) (recorder w) (pending w) (renders w) t
                    (handed w)) s
  | Socket ev => default s (deliver call JSON_parse ev s)
  end.

Definition run (actions : list Action) (s : Total) : Total :=
  foldl (λ s a, step a s) s actions.

End Step.

(** The application after its first render. *)
Definition mounted : Total :=
  effect (meeting_panel_effect
    (fresh (Build_World (Build_React false disconnected false)
                        Recorder.initial [] 0%nat 0 []))).

Definition capture_running (s : Total) : Prop :=
  ∃ r mr, Recorder.recorders (Recorder.media (recorder (world s))) !! r = Some mr
          ∧ Recorder.state mr = Recorder.recording.

(** A [handleAudioData] whose test [isConnected && !isMuted] is false: it
    sends nothing, whenever it is called. *)
Definition inert (cb : AudioDataCallback) : Prop :=
  cb_isConnected cb && negb (cb_isMuted cb) = false.

Definition pending_inert (p : Pending) : Prop :=
  match p with
  | AwaitStartSession _ start
  | AwaitUnmute _ _ start
  | AwaitTimeout _ start
  | AwaitGetUserMedia start => inert (Recorder.sr_onAudioData start)
  | AwaitBase64 cb _ => inert cb
  | AwaitStopSession _ | AwaitMute _ => True
  end.

(** Every [handleAudioData] that a recorder or a pending continuation holds
    is one that sends nothing. *)
Definition quiet_world (w : World) : Prop :=
  Forall pending_inert (pending w) ∧
  Forall inert (Recorder.callbacks (recorder w)).

Definition never_sends (s : Total) : Prop :=
  wire (browser s) = [] ∧ quiet_world (world s).

(** The user connects, the socket opens, and the user mutes before the
    one-second timer of [handleToggleConnection] expires; the timer then
    starts the capture. *)
Definition mute_before_timer : list Action :=
  [ ClickToggleConnection; Settle 0 true; Socket (EvOpen 1); Render;
    ClickToggleMute; Settle 1 true; Render;
    Settle 0 true;
    GetUserMedia 0 (Some (1%nat, Recorder.Started,
                          replicate Recorder.frequencyBinCount Byte.x00));
    Render ].

(** Connected, the user mutes, un-mutes, and mutes again while the
    permission prompt that the un-mute opened is still pending. *)
Definition mute_during_prompt : list Action :=
  [ Socket (EvOpen 0); Render;
    ClickToggleMute; Settle 0 true; Render;
    ClickToggleMute; Settle 0 true; Render;
    ClickToggleMute; Settle 1 true; Render;
    GetUserMedia 0 (Some (1%nat, Recorder.Started,
                          replicate Recorder.frequencyBinCount Byte.x00));
    Render ].

End App.

(** ** The Segmentation Buffer *)

Module Segmentation.

(** Modelled from the spec: the AudioChunk of section 3, together with the
    activity flag it is classified with. The Segmentation Buffer (section
    4.3) is backend code that is not among the sources at hand; the frontend
    only forwards every recorded chunk ([sendAudioChunk]). *)
Record AudioChunk := {
  sequenceId : nat;
  capturedAtMs : Z;
  payload : string;
  speakerHint : option string;
  isActive : bool
}.

(** Modelled from the spec: the configuration of section 6. *)
Record Config := {
  silenceTimeoutMs : Z;
  maxSegmentMs : Z
}.

Definition defaults : Config := Build_Config 500 8000.

(** Modelled from the spec: a Segment in state Open (section 3 and the Open
    state of section 4.3, which tracks [lastActiveMs]). *)
Record OpenSegment := {
  openStartMs : Z;
  lastActiveMs : Z;
  openChunks : list AudioChunk
}.

(** Modelled from the spec: a Segment that has been Closed and handed to
    the transcription boundary (section 3). *)
Record Segment := {
  speakerId : option string;
  startMs : Z;
  endMs : Z;
  chunks : list AudioChunk
}.

(** Modelled from the spec: Closed, "segment is finalized ([endMs] set)".
    The end is the last moment of activity, as in the scenario of section 8
    (chunks at 0, 300, 600, 900 then silence: one segment [0,900]). *)
Definition close (speaker : option string) (o : OpenSegment) : Segment :=
  Build_Segment speaker (openStartMs o) (lastActiveMs o) (openChunks o).

(** Modelled from the spec: the state machine of one speaker (section 4.3).
    [None] is Silent. Silent: an active chunk opens a segment that starts at
    the chunk; nothing is said to happen on an inactive one. Open: every
    chunk is appended, [lastActiveMs] is tracked, and the segment is closed
    when [now - lastActiveMs > silenceTimeout] or
    [now - startMs > maxSegmentDuration], [now] being the chunk's capture
    time; the speaker is Silent again. *)
Definition receive1 (cfg : Config) (c : AudioChunk) (st : option OpenSegment)
  : option OpenSegment * list Segment :=
  let now := capturedAtMs c in
  match st with
  | None =>
      if isActive c
      then (Some (Build_OpenSegment now now [c]), [])
      else (None, [])
  | Some o =>
      let lastActive := if isActive c then now else lastActiveMs o in
      let o' := Build_OpenSegment (openStartMs o) lastActive
                  (openChunks o ++ [c]) in
      if decide (now - lastActive > silenceTimeoutMs cfg
                 ∨ now - openStartMs o > maxSegmentMs cfg)
      then (None, [close (speakerHint c) o'])
      else (Some o', [])
  end.

(** Modelled from the spec: segmentation is per speaker; a chunk without
    [speakerHint] belongs to the one implicit speaker (key [None]). *)
Definition receive (cfg : Config) (c : AudioChunk)
    (buf : gmap (option string) OpenSegment)
  : gmap (option string) OpenSegment * list Segment :=
  let '(st, out) := receive1 cfg c (buf !! speakerHint c) in
  (match st with
   | Some o => <[speakerHint c := o]> buf
   | None => delete (speakerHint c) buf
   end, out).

(** Modelled from the spec: the buffer receives the chunks one after the
    other, in capture order, and hands over each segment as it closes. *)
Fixpoint feed (cfg : Config) (input : list AudioChunk)
    (buf : gmap (option string) OpenSegment)
  : gmap (option string) OpenSegment * list Segment :=
  match input with
  | [] => (buf, [])
  | c :: rest =>
      let '(buf1, out1) := receive cfg c buf in
      let '(buf2, out2) := feed cfg rest buf1 in
      (buf2, out1 ++ out2)
  end.

(** Modelled from the spec: when the session terminates mid-Open, "the
    partial segment is force-Closed and dispatched rather than discarded". *)
Definition flush (buf : gmap (option string) OpenSegment) : list Segment :=
  (λ '(speaker, o), close speaker o) <$> map_to_list buf.

(** Modelled from the spec: every segment that a session hands over, from
    its first chunk to its termination. *)
Definition segment_stream (cfg : Config) (input : list AudioChunk)
  : list Segment :=
  let '(buf, out) := feed cfg input ∅ in out ++ flush buf.





(** A segment covers a chunk of its speaker captured within its range. *)
Definition covers (g : Segment) (c : AudioChunk) : Prop :=
  speakerId g = speakerHint c ∧ startMs g ≤ capturedAtMs c ≤ endMs g.

#[global] Instance covers_dec g c : Decision (covers g c).
Proof. unfold covers. apply _. Defined.






Definition chunk (id : nat) (t : Z) (active : bool) : AudioChunk :=
  Build_AudioChunk id t "" None active.

(** The scenario of section 8: speech at 0, 300, 600, 900, then silence. *)
Definition utterance_then_silence : list AudioChunk :=
  [chunk 0 0 true; chunk 1 300 true; chunk 2 600 true; chunk 3 900 true;
   chunk 4 1200 false; chunk 5 1500 false].


End Segmentation.

(** ** The reconnect timer, seen from outside *)

Section Reconnection.
Context {Handler W : Type}.

(** What the service remembers of its timer ([reconnectTimer]) and what the
    browser has pending. *)
Definition timer_state (s : St Handler W) : option positive * gset positive :=
  (reconnectTimer (this s), timers (browser s)).

(** The effect of [clearReconnectTimer]. *)
Definition cleared (c c' : option positive * gset positive) : Prop :=
  c' = (None, match c.1 with Some id => c.2 ∖ {[id]} | None => c.2 end).

(** The effect of a path on which [scheduleReconnect] runs at most once. *)
Definition maybe_scheduled (c c' : option positive * gset positive) : Prop :=
  c' = c ∨ (c.1 = None ∧ ∃ id, c' = (Some id, c.2 ∪ {[id]})).

(** Every pending timer is the one the service remembers. *)
Definition known (c : option positive * gset positive) : Prop :=
  ∀ id, id ∈ c.2 → c.1 = Some id.

Definition timer_known (s : St Handler W) : Prop := known (timer_state s).

(** The timer has fired and the service still holds its handle. *)
Definition stale (id : positive) (c : option positive * gset positive) : Prop :=
  c = (Some id, ∅).

(** [reconnectTimer] is set back to [null] in [clearReconnectTimer] only,
    which [onopen] and [disconnect] call: these are the actions that can
    reach it. *)
Definition resets_timer (a : @Action Handler) : bool :=
  match a with
  | Disconnect | Event (EvOpen _) => true
  | _ => false
  end.

(** The subscriptions are what they were. *)
Definition same_handlers (s s' : St Handler W) : Prop :=
  messageHandlers (this s') = messageHandlers (this s).

End Reconnection.

(** ** Runs of the recorder hook *)

Module RecorderRuns.
Import Recorder.

(** Whether the [calculateAudioLevel] that an action calls was created by a
    render that showed [isRecording && !isPaused]: only such a closure asks
    for another animation frame. [startRecording] and [resumeRecording]
    call the one of their own render. *)
Definition closure_loops (a : Action) : bool :=
  match a with
  | StartGranted c _ _ _ => sr_isRecording c && negb (sr_isPaused c)
  | Resume isRecording isPaused _ => isRecording && negb isPaused
  | _ => false
  end.

(** Recorder [r] and stream [i] exist, and no ref of the hook points to
    either of them. *)
Definition orphaned (r i : nat) (mr : MediaRecorder) (tracks : list TrackState)
    (s : State) : Prop :=
  recorders (media s) !! r = Some mr ∧
  streams (media s) !! i = Some tracks ∧
  mediaRecorderRef (refs s) ≠ Some r ∧
  streamRef (refs s) ≠ Some i.

(** No animation frame is requested and the hook remembers none. *)
Definition meter_idle (s : State) : Prop :=
  frames (media s) = ∅ ∧ animationFrameRef (refs s) = None.

End RecorderRuns.

(** ** blobToBase64 (hooks/useAudioRecorder.ts) *)

Module DataUrl.
Import Stdlib.Strings.Ascii.

(** [s.split(',')] *)
Fixpoint split_comma (s : string) : list string :=
  match s with
  | EmptyString => [EmptyString]
  | String c s' =>
      if Ascii.eqb c ","%char then EmptyString :: split_comma s'
      else match split_comma s' with
           | piece :: pieces => String c piece :: pieces
           | [] => [String c EmptyString]
           end
  end.

(** What [blobToBase64] resolves with when the reader has finished with
    [result], a data URL: [base64.split(',')[1]]; [None] is [undefined]. *)
Definition blobToBase64 (result : string) : option string :=
  split_comma result !! 1%nat.

Fixpoint no_comma (s : string) : bool :=
  match s with
  | EmptyString => true
  | String c s' => negb (Ascii.eqb c ","%char) && no_comma s'
  end.

End DataUrl.

(** ** The subscriptions of the application over its renders *)

Module AppEffects.
Import App.

Definition is_render (a : Action) : bool :=
  match a with
  | Render => true
  | _ => false
  end.

(** How often the application re-rendered during [actions]. *)
Definition renders_in (actions : list Action) : nat :=
  length (filter (λ a, is_render a = true) actions).

(** Every registered function was registered by an effect body: none is the
    [() => {}] of a cleanup, and [handleStatusUpdate] of [MeetingPanel] is
    registered under 'status' only. *)
Definition registered_by_effects (s : Total) : Prop :=
  ∀ e h, h ∈ handlers_of e s → h.2 ≠ Anonymous ∧ (h.2 = OnMeetingStatus → e = "status").

(** The subscribers of the two connection events are those of [App], and
    there is at least one of each. *)
Definition connection_subscribers (s : Total) : Prop :=
  (handlers_of "connected" s ≠ [] ∧
   Forall (λ h : Handler, h.2 = OnConnected) (handlers_of "connected" s)) ∧
  (handlers_of "disconnected" s ≠ [] ∧
   Forall (λ h : Handler, ∃ isRecording, h.2 = OnDisconnected isRecording)
          (handlers_of "disconnected" s)).

End AppEffects.

(** ** getMeetingStatus (services/api.ts) *)

Module Meeting.

(** JavaScript truthiness of a property value that came from JSON; [None]
    is [undefined]. *)
Definition truthy (v : option json) : bool :=
  match v with
  | None | Some JNull => false
  | Some (JBool b) => b
  | Some (JNum n) => negb (Qeq_bool n 0)
  | Some (JStr s) => negb (bool_decide (s = ""))
  | Some (JArr _) | Some (JObj _) => true
  end.

(** [m.key] for one of the keys read below: a [TypeError] on [null],
    [undefined] on an object without the key and on numbers, strings,
    booleans and arrays, which have none of these keys. *)
Definition prop (key : string) (m : json) : Res (option json) :=
  match m with
  | JNull => Throw TypeError
  | JObj fields => Ok (obj_get key fields)
  | _ => Ok None
  end.

(** [v || d] *)
Definition or_else (v : option json) (d : json) : json :=
  match v with
  | Some j => if truthy v then j else d
  | None => d
  end.

Record StatusDetails := {
  code : option json;
  created_at : option json;
  start_time : option json
}.

Record BotStatus := {
  status : option json;
  status_details : StatusDetails;
  mp4_url : option json;
  speakers : json;
  error_details : json
}.

(** The object literal that both branches build from one active meeting. *)
Definition bot_status_of (m : json) : Res BotStatus :=
  match m with
  | JNull => Throw TypeError
  | _ =>
      let get key := match m with
                     | JObj fields => obj_get key fields
                     | _ => None
                     end in
      Ok {| status := get "status";
            status_details := {| code := get "status";
                                 created_at := get "created_at";
                                 start_time := get "start_time" |};
            mp4_url := get "mp4_url";
            speakers := or_else (get "speakers") (JArr []);
            error_details := or_else (get "error_details") JNull |}
  end.

(** [m.bot_id === botId] *)
Definition has_bot_id (botId : string) (m : json) : bool :=
  match m with
  | JObj fields =>
      match obj_get "bot_id" fields with
      | Some (JStr b) => bool_decide (b = botId)
      | _ => false
      end
  | _ => false
  end.

(** [activeMeetings.find((m) => m.bot_id === botId)]: the callback throws
    on a [null] element it reaches. *)
Fixpoint find (botId : string) (activeMeetings : list json)
  : Res (option json) :=
  match activeMeetings with
  | [] => Ok None
  | m :: rest =>
      match prop "bot_id" m with
      | Throw e => Throw e
      | Ok _ => if has_bot_id botId m then Ok (Some m) else find botId rest
      end
  end.

(** [activeMeetings.map((m) => ({ ... }))] *)
Fixpoint map_bot_status (activeMeetings : list json) : Res (list BotStatus) :=
  match activeMeetings with
  | [] => Ok []
  | m :: rest =>
      match bot_status_of m with
      | Throw e => Throw e
      | Ok st =>
          match map_bot_status rest with
          | Throw e => Throw e
          | Ok sts => Ok (st :: sts)
          end
      end
  end.

Inductive Response :=
| NotFound (message : string)        (* { success: false, message } *)
| Found (bot_status : BotStatus)     (* { success: true, bot_status: {...} } *)
| All (bot_status : list BotStatus). (* { success: true, bot_status: [...] } *)

(** [getMeetingStatus] from the point where [getActiveMeetings] has
    resolved with [activeMeetings], the body of the response, whatever it
    is; a rejected request rejects the call before this point. [botId] is
    [None] when the argument is left out. Calling [find] or [map] on
    anything but an array is a [TypeError]. *)
Definition getMeetingStatus (botId : option string) (activeMeetings : json)
  : Res Response :=
  match activeMeetings with
  | JArr meetings =>
      if bool_decide (botId = None ∨ botId = Some "")
      then match map_bot_status meetings with
           | Throw e => Throw e
           | Ok sts => Ok (All sts)
           end
      else match find (default "" botId) meetings with
           | Throw e => Throw e
           | Ok None => Ok (NotFound "Bot not found")
           | Ok (Some bot) =>
               match bot_status_of bot with
               | Throw e => Throw e
               | Ok st => Ok (Found st)
               end
           end
  | _ => Throw TypeError
  end.

(** The meetings [find] passes over before it returns: none is [null] and
    none has the id. *)
Definition passed_over (botId : string) (meetings : list json) : Prop :=
  Forall (λ m, m ≠ JNull ∧ has_bot_id botId m = false) meetings.

End Meeting.

(** ** MeetingPanel (components/MeetingPanel.tsx) *)

Module MeetingPanel.
Import Stdlib.Strings.Ascii.

(** [useState] of the panel, without the URL field and the join request.
    [meetingStatus] is declared a string, but [handleStatusUpdate] and the
    poll store whatever the backend sent. *)
Record Panel := {
  botId : option string;
  meetingStatus : option json;
  statusMessage : string;
  statusDetails : option Meeting.StatusDetails;
  recordingUrl : json;
  speakers : json;
  errorDetails : json
}.

(** The panel at its first render. *)
Definition initial : Panel :=
  Build_Panel None (Some (JStr "idle")) "" None JNull (JArr []) JNull.

Definition setMeetingStatus (v : option json) (p : Panel) : Panel :=
  Build_Panel (botId p) v (statusMessage p) (statusDetails p) (recordingUrl p)
              (speakers p) (errorDetails p).
Definition setStatusMessage (msg : string) (p : Panel) : Panel :=
  Build_Panel (botId p) (meetingStatus p) msg (statusDetails p) (recordingUrl p)
              (speakers p) (errorDetails p).
Definition setStatusDetails (d : Meeting.StatusDetails) (p : Panel) : Panel :=
  Build_Panel (botId p) (meetingStatus p) (statusMessage p) (Some d)
              (recordingUrl p) (speakers p) (errorDetails p).
Definition setRecordingUrl (u : json) (p : Panel) : Panel :=
  Build_Panel (botId p) (meetingStatus p) (statusMessage p) (statusDetails p) u
              (speakers p) (errorDetails p).
Definition setSpeakers (l : json) (p : Panel) : Panel :=
  Build_Panel (botId p) (meetingStatus p) (statusMessage p) (statusDetails p)
              (recordingUrl p) l (errorDetails p).
Definition setErrorDetails (e : json) (p : Panel) : Panel :=
  Build_Panel (botId p) (meetingStatus p) (statusMessage p) (statusDetails p)
              (recordingUrl p) (speakers p) e.

(** [s.replace(pat, rep)] with a string pattern: the first occurrence. *)
Fixpoint replace (pat rep s : string) : string :=
  if String.prefix pat s
  then rep +:+ String.substring (String.length pat)
                 (String.length s - String.length pat) s
  else match s with
       | EmptyString => EmptyString
       | String c s' => String c (replace pat rep s')
       end.

(** [s.replace(/_/g, ' ')] *)
Fixpoint underscores_to_spaces (s : string) : string :=
  match s with
  | EmptyString => EmptyString
  | String c s' =>
      String (if Ascii.eqb c "_"%char then " "%char else c)
             (underscores_to_spaces s')
  end.

(** The [switch] of [handleStatusUpdate] on a string: the message to show,
    or [None] when the status matches no case and does not start with
    'failed_'. *)
Definition status_message (newStatus : string) : option string :=
  if decide (newStatus = "joining_call")
  then Some "Bot is joining the meeting..."
  else if decide (newStatus = "in_waiting_room")
  then Some "Bot is in the waiting room. Please admit it to the meeting."
  else if decide (newStatus = "in_call_not_recording")
  then Some "Bot has joined but is not recording yet..."
  else if decide (newStatus = "in_call_recording")
  then Some "Bot is actively recording the meeting."
  else if decide (newStatus = "call_ended")
  then Some "Meeting has ended. Processing transcript..."
  else if decide (newStatus = "completed")
  then Some "Meeting completed successfully!"
  else if String.prefix "failed_" newStatus
  then Some ("Failed: " +:+
             underscores_to_spaces (replace "failed_" "" newStatus))
  else None.

(** The subscriber of 'status'. [onStatusChange] is [undefined]: [App]
    renders the panel without props. A status that is truthy and not a
    string reaches [newStatus.startsWith], which is not a function. *)
Definition handleStatusUpdate (data : json) (p : Panel) : Res () * Panel :=
  match Meeting.prop "status" data with
  | Throw e => (Throw e, p)
  | Ok newStatus =>
      let p1 := setMeetingStatus newStatus p in
      match newStatus with
      | Some (JStr s) =>
          (Ok (), match status_message s with
                  | Some msg => setStatusMessage msg p1
                  | None => p1
                  end)
      | _ => if Meeting.truthy newStatus then (Throw TypeError, p1)
             else (Ok (), p1)
      end
  end.

Inductive Icon :=
| Recording      (* CheckCircle, green *)
| Waiting        (* AlertCircle, yellow *)
| Completed      (* CheckCircle, blue *)
| Failed         (* AlertCircle, red *)
| Idle.          (* Users, gray *)

(** Called while rendering. *)
Definition getStatusIcon (p : Panel) : Res Icon :=
  match meetingStatus p with
  | Some (JStr s) =>
      if decide (s = "in_call_recording") then Ok Recording
      else if decide (s = "joining_call" ∨ s = "in_waiting_room"
                      ∨ s = "in_call_not_recording") then Ok Waiting
      else if decide (s = "completed") then Ok Completed
      else if String.prefix "failed_" s then Ok Failed
      else Ok Idle
  | v => if Meeting.truthy v then Throw TypeError else Ok Idle
  end.

(** Evaluated while rendering, before [getStatusIcon]. *)
Definition isInMeeting (p : Panel) : Res bool :=
  match botId p with
  | None => Ok false
  | Some b =>
      if decide (b = "") then Ok false
      else match meetingStatus p with
           | Some (JStr s) =>
               Ok (bool_decide (s ≠ "" ∧ s ≠ "idle" ∧ s ≠ "completed")
                   && negb (String.prefix "failed_" s))
           | v => if Meeting.truthy v then Throw TypeError else Ok false
           end
  end.

(** What the poll does with a response: nothing unless it is a success
    with a [bot_status]; an array has none of the properties read. *)
Definition poll_result (response : Meeting.Response) (p : Panel) : Panel :=
  match response with
  | Meeting.NotFound _ => p
  | Meeting.All _ => setMeetingStatus None p
  | Meeting.Found st =>
      let p1 := setMeetingStatus (Meeting.status st) p in
      let p2 := setStatusDetails (Meeting.status_details st) p1 in
      let p3 := if Meeting.truthy (Meeting.mp4_url st)
                then setRecordingUrl (default JNull (Meeting.mp4_url st)) p2
                else p2 in
      let p4 := if Meeting.truthy (Some (Meeting.speakers st))
                then setSpeakers (Meeting.speakers st) p3
                else p3 in
      if Meeting.truthy (Some (Meeting.error_details st))
      then setErrorDetails (Meeting.error_details st) p4
      else p4
  end.

(** One tick of the poll, from the point where the request has resolved.
    The interval exists only while [botId] is truthy; a rejected request
    and an exception in [getMeetingStatus] are caught and logged. *)
Definition poll (activeMeetings : json) (p : Panel) : Panel :=
  match botId p with
  | None => p
  | Some b =>
      if decide (b = "") then p
      else match Meeting.getMeetingStatus (Some b) activeMeetings with
           | Ok response => poll_result response p
           | Throw _ => p
           end
  end.

End MeetingPanel.

(** ** AudioVisualizer (components/AudioVisualizer.tsx) *)

Module Visualizer.

Definition bars : nat := 40.

(** The arguments of one [fillRect]. *)
Record Rect := {
  x : Q;
  y : Q;
  width : Q;
  height : Q
}.

(** The body of the loop of [draw] for bar [i]; [random] is what
    [Math.random()] returned. *)
Definition bar (audioLevel offsetWidth offsetHeight : Q) (i : nat) (random : Q)
  : Rect :=
  let barWidth := (offsetWidth / inject_Z (Z.of_nat bars))%Q in
  let barGap := 2%Q in
  let barHeight := (random * (audioLevel / 100) * offsetHeight * 0.8)%Q in
  let x := (inject_Z (Z.of_nat i) * barWidth)%Q in
  let y := (offsetHeight - barHeight)%Q in
  Build_Rect (x + barGap / 2) y (barWidth - barGap) barHeight.

(** The rectangles one call of [draw] fills, after it cleared the canvas;
    [random i] is the [i]-th result of [Math.random()]. [fillRect] does
    nothing when an argument is [NaN]. *)
Definition draw (isActive : bool) (audioLevel : Recorder.number)
    (offsetWidth offsetHeight : Q) (random : nat → Q) : list Rect :=
  if isActive then
    match audioLevel with
    | Recorder.Num level =>
        (λ i, bar level offsetWidth offsetHeight i (random i)) <$> seq 0 bars
    | Recorder.NaN => []
    end
  else [].

(** A bar that stands on the lower edge of a canvas of height [h] and
    reaches at most 80% of it. *)
Definition inside (h : Q) (r : Rect) : Prop :=
  (0 <= height r)%Q ∧ (height r <= 0.8 * h)%Q ∧ (y r + height r == h)%Q.

End Visualizer.

(** * Properties *)

(** ** The emitter *)

Section Emitter.
Context {Handler : Type} `{!EqDecision Handler} {W : Type}.
Variable call : Handler → value → W → Res () * W.

Abbreviation State := (St Handler W).

Lemma indexOf_None (h : Handler) (l : list Handler) :
  indexOf h l = None ↔ h ∉ l.
Proof.
  induction l as [|y l IH]; simpl.
  - split; [intros _; apply not_elem_of_nil | done].
  - destruct (decide (h = y)) as [->|Hne].
    + split; [done | intros []; apply list_elem_of_here].
    + rewrite fmap_None, IH, not_elem_of_cons.
      split; [intros ?; by split | by intros [_ ?]].
Qed.

Lemma indexOf_Some (h : Handler) (l : list Handler) i :
  indexOf h l = Some i →
  ∃ pre post, l = pre ++ h :: post ∧ (h ∉ pre) ∧ i = length pre.
Proof.
  revert i. induction l as [|y l IH]; simpl; intros i Hi; [done|].
  destruct (decide (h = y)) as [->|Hne].
  - injection Hi as <-. exists [], l. split_and!; [done | apply not_elem_of_nil | done].
  - apply fmap_Some in Hi as (j & Hj & ->).
    destruct (IH j Hj) as (pre & post & -> & Hpre & ->).
    exists (y :: pre), post. split_and!; [done | | done].
    rewrite not_elem_of_cons. done.
Qed.

Lemma indexOf_snoc_fresh (h : Handler) (l : list Handler) :
  h ∉ l → indexOf h (l ++ [h]) = Some (length l).
Proof.
  induction l as [|y l IH]; simpl; intros Hl.
  - by rewrite decide_True.
  - apply not_elem_of_cons in Hl as [Hne Hl].
    rewrite decide_False by done. by rewrite IH.
Qed.

Lemma delete_at_length (pre post : list Handler) h :
  delete (length pre) (pre ++ h :: post) = pre ++ post.
Proof. induction pre as [|y pre IH]; simpl; [done | by rewrite IH]. Qed.

Lemma delete_at_length_nil (pre : list Handler) h :
  delete (length pre) (pre ++ [h]) = pre.
Proof. by rewrite delete_at_length, app_nil_r. Qed.

Lemma handlers_of_on event h (s : State) :
  handlers_of event (state_after (on event h s)) = handlers_of event s ++ [h].
Proof.
  unfold on, handlers_of. unfold_m. simpl.
  destruct (messageHandlers (this s) !! event) as [hs|] eqn:Hm; simpl.
  - by rewrite lookup_alter_eq, Hm.
  - by rewrite lookup_alter_eq, lookup_insert_eq.
Qed.

Lemma handlers_of_off event h (s : State) :
  let hs := handlers_of event s in
  let hs' := handlers_of event (state_after (off event h s)) in
  ((h ∉ hs) ∧ hs' = hs) ∨
  (∃ pre post, hs = pre ++ h :: post ∧ (h ∉ pre) ∧ hs' = pre ++ post).
Proof.
  unfold off, handlers_of. unfold_m. simpl.
  destruct (messageHandlers (this s) !! event) as [hs|] eqn:Hm; simpl.
  - destruct (indexOf h hs) as [i|] eqn:Hi; simpl.
    + right. destruct (indexOf_Some _ _ _ Hi) as (pre & post & -> & Hpre & ->).
      exists pre, post. rewrite lookup_insert_eq. simpl.
      by rewrite delete_at_length.
    + left. rewrite Hm. simpl. split; [by apply indexOf_None | done].
  - left. rewrite Hm. simpl. split; [apply not_elem_of_nil | done].
Qed.

Lemma forEach_spec (hs : list Handler) data (s : State) :
  let r := forEach call hs data s in
  this r.2 = this s ∧ browser r.2 = browser s ∧
  invoked r.2 = invoked s ++ map (λ h, (h, data)) (reached call hs data (world s)) ∧
  match r.1 with
  | Ok _ => reached call hs data (world s) = hs
  | Throw _ => ∃ pre h post,
      hs = pre ++ h :: post ∧ reached call hs data (world s) = pre ++ [h]
  end.
Proof.
  revert s. induction hs as [|h hs IH]; intros s; simpl.
  - unfold_m. simpl. by rewrite app_nil_r.
  - unfold_m. unfold invoke. simpl.
    destruct (call h data (world s)) as [[[]|e] w] eqn:Hc; simpl.
    + specialize (IH (Build_St (this s) (browser s) w (invoked s ++ [(h, data)]))).
      simpl in IH. destruct IH as (Ht & Hb & Hi & Hr).
      repeat split; try done.
      * rewrite Hi. by rewrite <- app_assoc.
      * destruct (forEach call hs data _) as [[[]|e] s'] eqn:Hf; simpl in *.
        -- by rewrite Hr.
        -- destruct Hr as (pre & h' & post & -> & Hre).
           exists (h :: pre), h', post. by rewrite Hre.
    + repeat split; try done. by exists [], h, hs.
Qed.

Lemma emit_spec event data (s : State) :
  let r := emit call event data s in
  let hs := handlers_of event s in
  this r.2 = this s ∧ browser r.2 = browser s ∧
  invoked r.2 = invoked s ++ map (λ h, (h, data)) (reached call hs data (world s)) ∧
  match r.1 with
  | Ok _ => reached call hs data (world s) = hs
  | Throw _ => ∃ pre h post,
      hs = pre ++ h :: post ∧ reached call hs data (world s) = pre ++ [h]
  end.
Proof.
  unfold emit, handlers_of. unfold_m.
  destruct (messageHandlers (this s) !! event) as [hs|]; simpl.
  - apply forEach_spec.
  - by rewrite app_nil_r.
Qed.

Lemma calls_of_reached event data (s : State) :
  calls_of call event data s =
  map (λ h, (h, data)) (reached call (handlers_of event s) data (world s)).
Proof.
  unfold calls_of, state_after.
  destruct (emit_spec event data s) as (_ & _ & -> & _).
  by rewrite drop_app_length.
Qed.


Lemma reached_subseteq (hs : list Handler) data w h :
  h ∈ reached call hs data w → h ∈ hs.
Proof.
  revert w. induction hs as [|y hs IH]; simpl; intros w; [done|].
  rewrite !elem_of_cons. intros [->|Hin]; [by left|]. right.
  destruct (call y data w) as [[[]|e] w']; [by eapply IH | by apply elem_of_nil in Hin].
Qed.

Lemma on_off_state event h (s : State) :
  h ∉ handlers_of event s →
  state_after (off event h (state_after (on event h s))) =
  Build_St
    (Build_WebSocketService (ws (this s)) (reconnectTimer (this s))
       (<[event := handlers_of event s]> (messageHandlers (this s))))
    (browser s) (world s) (invoked s).
Proof.
  intros Hfresh. unfold off, on, handlers_of, set_this in *. unfold_m. simpl.
  destruct (messageHandlers (this s) !! event) as [hs|] eqn:Hm; simpl in *.
  - rewrite lookup_alter_eq, Hm. simpl.
    rewrite indexOf_snoc_fresh by done. simpl.
    rewrite delete_at_length_nil, insert_alter_eq. done.
  - rewrite lookup_alter_eq, lookup_insert_eq. simpl.
    rewrite decide_True by done. simpl.
    by rewrite insert_alter_eq, insert_insert_eq.
Qed.

(** C10: for a handler [h] not registered for [event], [on] followed by
    [off] gives back the handler list of [event] and touches nothing else of
    the service (the registrations of the other events, the socket, the
    timer) nor of the browser, so a later dispatch of [event] does not call
    [h]. In any state, [off] removes the first occurrence of the handler and
    only that one, or nothing when the handler is not registered. *)
Theorem on_off_roundtrip event h (s : State) :
  h ∉ handlers_of event s →
  let s' := state_after (off event h (state_after (on event h s))) in
  (∀ e, handlers_of e s' = handlers_of e s) ∧
  ws (this s') = ws (this s) ∧
  reconnectTimer (this s') = reconnectTimer (this s) ∧
  browser s' = browser s ∧ world s' = world s ∧ invoked s' = invoked s ∧
  (∀ data, h ∉ (calls_of call event data s').*1) ∧
  (∀ s0 : State,
     let hs := handlers_of event s0 in
     let hs' := handlers_of event (state_after (off event h s0)) in
     ((h ∉ hs) ∧ hs' = hs) ∨
     (∃ pre post, hs = pre ++ h :: post ∧ (h ∉ pre) ∧ hs' = pre ++ post)).
Proof.
  intros Hfresh s'.
  assert (Hs' : s' = _) by apply (on_off_state event h s Hfresh).
  assert (Hall : ∀ e, handlers_of e s' = handlers_of e s).
  { intros e. rewrite Hs'. unfold handlers_of at 1. simpl.
    destruct (decide (event = e)) as [->|Hne].
    - by rewrite lookup_insert_eq.
    - by rewrite lookup_insert_ne. }
  split_and!; try (rewrite Hs'; done); [done | | apply handlers_of_off].
  intros data Hin. rewrite calls_of_reached in Hin.
  rewrite <- list_fmap_compose in Hin. simpl in Hin.
  rewrite list_fmap_id in Hin. apply reached_subseteq in Hin.
  by rewrite Hall in Hin.
Qed.

End Emitter.


Lemma on_off_roundtrip_witness :
(7%nat ∉ handlers_of "status" Scenario.subscribed) ∧
  handlers_of "status"
    (state_after (off "status" 7%nat
       (state_after (on "status" 7%nat Scenario.subscribed))))
  = [1%nat; 2%nat].
Proof.
  assert (Hhs : handlers_of "status" Scenario.subscribed = [1%nat; 2%nat])
    by (by vm_compute).
  assert (H : 7%nat ∉ handlers_of "status" Scenario.subscribed).
  { rewrite Hhs, !not_elem_of_cons. split_and!; [done | done | apply not_elem_of_nil]. }
  split; [exact H|].
  destruct (on_off_roundtrip Scenario.call "status" 7%nat Scenario.subscribed H)
    as [Hall _].
  rewrite Hall. exact Hhs.
Defined.

(** ** The transport *)

Section Transport.
Context {Handler : Type} `{!EqDecision Handler} {W : Type}.
Variable call : Handler → value → W → Res () * W.
Variable JSON_parse : string → option json.

Abbreviation State := (St Handler W).

Lemma not_connected_cases (s : State) :
  isConnected s = false →
  ws (this s) = None ∨
  ∃ i, ws (this s) = Some i ∧ readyState i s ≠ Some OPEN.
Proof.
  unfold isConnected. destruct (ws (this s)) as [i|]; [|by left].
  intros H%bool_decide_eq_false. right. by exists i.
Qed.

(** What a [send] on a transport that is not Open leaves behind: the state
    it found, with one warning more on the console. *)
Lemma send_not_connected type data (s : State) :
  isConnected s = false →
  send type data s =
  (Ok (), Build_St (this s)
            (Build_Browser (sockets (browser s)) (timers (browser s))
               (next_timer (browser s)) (wire (browser s))
               (console (browser s) ++ [Warn "WebSocket is not connected"])
               (url_ok (browser s)))
            (world s) (invoked s)).
Proof.
  unfold isConnected, send. unfold_m.
  destruct (ws (this s)) as [i|]; [|done].
  intros ->. done.
Qed.

(** *** Nothing the service does depends on the console *)

Lemma same_refl (s : State) : same_but_console s s.
Proof. by repeat split. Qed.

Ltac same_fields H :=
  destruct H as (?Ht & ?Hso & ?Hti & ?Hnt & ?Hwi & ?Hu & ?Hw & ?Hi).

Ltac solve_same :=
  repeat match goal with
         | s : St _ _ |- _ => destruct s as [? [? ? ? ? ? ?] ? ?]
         end;
  unfold same_but_console, set_this, set_browser in *; simpl in *;
  destruct_and?; simplify_eq; by split_and!.

Lemma blind_ret {A} (a : A) : console_blind (mret a : M State A).
Proof. intros s1 s2 H. by split. Qed.

Lemma blind_throw {A} e : console_blind (throw e : M State A).
Proof. intros s1 s2 H. by split. Qed.

Lemma blind_bind {A B} (m : M State A) (k : A → M State B) :
  console_blind m → (∀ a, console_blind (k a)) → console_blind (m ≫= k).
Proof.
  intros Hm Hk s1 s2 H. unfold_m.
  destruct (Hm s1 s2 H) as [Hr Hs].
  destruct (m s1) as [[a|e] s1'], (m s2) as [[a'|e'] s2']; simpl in *;
    try done.
  - injection Hr as <-. by apply Hk.
  - injection Hr as <-. done.
Qed.

Lemma blind_try {A} (m : M State A) (h : exn → M State A) :
  console_blind m → (∀ e, console_blind (h e)) → console_blind (try_catch m h).
Proof.
  intros Hm Hh s1 s2 H. unfold_m.
  destruct (Hm s1 s2 H) as [Hr Hs].
  destruct (m s1) as [[a|e] s1'], (m s2) as [[a'|e'] s2']; simpl in *;
    try done.
  injection Hr as <-. by apply Hh.
Qed.

Lemma blind_modify (f : State → State) :
  (∀ s1 s2, same_but_console s1 s2 → same_but_console (f s1) (f s2)) →
  console_blind (modify f).
Proof. intros Hf s1 s2 H. split; [done | by apply Hf]. Qed.

Lemma blind_get_bind {A} (k : State → M State A) :
  (∀ s1 s2, same_but_console s1 s2 →
     ∀ t1 t2, same_but_console t1 t2 →
       (k s1 t1).1 = (k s2 t2).1 ∧ same_but_console (k s1 t1).2 (k s2 t2).2) →
  console_blind (get ≫= k).
Proof. intros Hk s1 s2 H. unfold_m. by apply Hk. Qed.

Lemma blind_console_log e : console_blind (console_log e : M State ()).
Proof. apply blind_modify. intros s1 s2 H. solve_same. Qed.

Lemma blind_forEach hs data : console_blind (forEach call hs data).
Proof.
  induction hs as [|h hs IH]; simpl; [apply blind_ret|].
  apply blind_bind; [|done].
  intros s1 s2 H. same_fields H. unfold invoke. rewrite Hw.
  destruct (call h data (world s2)) as [r w]. simpl.
  split; [done | ]. unfold same_but_console, set_this, set_browser; simpl;
  split_and!; try done. by f_equal.
Qed.

Lemma blind_emit event data : console_blind (emit call event data).
Proof.
  apply blind_get_bind. intros s1 s2 H t1 t2 Ht. same_fields H. rewrite Ht0.
  destruct (messageHandlers (this s2) !! event).
  - by apply blind_forEach.
  - by apply blind_ret.
Qed.

Lemma blind_on event h : console_blind (on event h : M State ()).
Proof. apply blind_modify. intros s1 s2 H. solve_same. Qed.

Lemma blind_off event h : console_blind (off event h : M State ()).
Proof. apply blind_modify. intros s1 s2 H. solve_same. Qed.

Lemma blind_clearReconnectTimer :
  console_blind (clearReconnectTimer : M State ()).
Proof.
  apply blind_get_bind. intros s1 s2 H t1 t2 Ht. same_fields H. rewrite Ht0.
  destruct (reconnectTimer (this s2)); [|by apply blind_ret].
  apply blind_bind; [|intros _|done];
    apply blind_modify; intros ?? ?; solve_same.
Qed.

Lemma blind_scheduleReconnect :
  console_blind (scheduleReconnect : M State ()).
Proof.
  apply blind_get_bind. intros s1 s2 H t1 t2 Ht. same_fields H.
  rewrite Ht0, Hnt.
  destruct (reconnectTimer (this s2)); [by apply blind_ret|].
  apply blind_bind; [|intros _|done];
    apply blind_modify; intros ?? ?; solve_same.
Qed.

Lemma blind_connect : console_blind (connect : M State ()).
Proof.
  apply blind_try.
  - apply blind_bind.
    + apply blind_get_bind. intros s1 s2 H t1 t2 Ht. same_fields H.
      rewrite Hu, Hso. destruct (url_ok (browser s2)); [|by apply blind_throw].
      apply blind_bind; [|intros _; apply blind_ret|done].
      apply blind_modify; intros ?? ?; solve_same.
    + intros i. apply blind_modify; intros ?? ?; solve_same.
  - intros _. apply blind_bind; [apply blind_console_log|].
    intros _. apply blind_scheduleReconnect.
Qed.

Lemma blind_disconnect : console_blind (disconnect : M State ()).
Proof.
  apply blind_bind; [apply blind_clearReconnectTimer|]. intros _.
  apply blind_get_bind. intros s1 s2 H t1 t2 Ht. same_fields H. rewrite Ht0.
  destruct (ws (this s2)); [|by apply blind_ret].
  apply blind_bind; [|intros _|done];
    apply blind_modify; intros ?? ?; solve_same.
Qed.

Lemma blind_send type data : console_blind (send type data : M State ()).
Proof.
  apply blind_get_bind. intros s1 s2 H t1 t2 Ht. same_fields H.
  unfold readyState. rewrite Ht0, Hso.
  destruct (ws (this s2)); [|by apply blind_console_log].
  case_bool_decide; [|by apply blind_console_log].
  apply blind_modify; [|done]. intros ?? ?; solve_same.
Qed.

Lemma blind_onopen : console_blind (onopen call).
Proof.
  apply blind_bind; [apply blind_console_log|]. intros _.
  apply blind_bind; [apply blind_clearReconnectTimer|]. intros _.
  apply blind_emit.
Qed.

Lemma blind_onmessage frame : console_blind (onmessage call JSON_parse frame).
Proof.
  apply blind_try; [|intros _; apply blind_console_log].
  destruct (JSON_parse frame) as [data|]; [|apply blind_throw].
  destruct (get_type data) as [[[]|]|]; try apply blind_throw;
    try apply blind_ret; try apply blind_emit.
Qed.

Lemma blind_onerror : console_blind (onerror call).
Proof. apply blind_bind; [apply blind_console_log|]. intros _. apply blind_emit. Qed.

Lemma blind_onclose : console_blind (onclose call).
Proof.
  apply blind_bind; [apply blind_console_log|]. intros _.
  apply blind_bind; [apply blind_emit|]. intros _.
  apply blind_scheduleReconnect.
Qed.

Lemma blind_reconnect_callback :
  console_blind (reconnect_callback : M State ()).
Proof. apply blind_bind; [apply blind_console_log|]. intros _. apply blind_connect. Qed.

Lemma same_set_readyState i r (s1 s2 : State) :
  same_but_console s1 s2 →
  same_but_console (set_readyState i r s1) (set_readyState i r s2).
Proof. intros H. unfold set_readyState. solve_same. Qed.

Lemma same_expire id (s1 s2 : State) :
  same_but_console s1 s2 → same_but_console (expire id s1) (expire id s2).
Proof. intros H. unfold expire. solve_same. Qed.

Lemma same_deliver ev (s1 s2 : State) :
  same_but_console s1 s2 →
  match deliver call JSON_parse ev s1, deliver call JSON_parse ev s2 with
  | Some s1', Some s2' => same_but_console s1' s2'
  | None, None => True
  | _, _ => False
  end.
Proof.
  intros H. pose proof H as H'. same_fields H'.
  destruct ev as [i|i frame|i|i|id]; simpl; unfold readyState, task, state_after;
    rewrite ?Hso, ?Hti.
  - destruct (sockets (browser s2) !! i) as [[]|]; try done.
    by apply blind_onopen, same_set_readyState.
  - destruct (sockets (browser s2) !! i) as [[]|]; try done.
    by apply blind_onmessage.
  - destruct (sockets (browser s2) !! i) as [r|]; try done.
    by apply blind_onerror.
  - destruct (sockets (browser s2) !! i) as [[]|]; try done;
      by apply blind_onclose, same_set_readyState.
  - case_decide; [|done]. by apply blind_reconnect_callback, same_expire.
Qed.

Lemma same_step a (s1 s2 : State) :
  same_but_console s1 s2 →
  same_but_console (step call JSON_parse a s1) (step call JSON_parse a s2).
Proof.
  intros H. destruct a as [| |type data|event h|event h|ev]; simpl;
    unfold state_after.
  - by apply blind_connect.
  - by apply blind_disconnect.
  - by apply blind_send.
  - by apply blind_on.
  - by apply blind_off.
  - pose proof (same_deliver ev s1 s2 H) as Hd.
    destruct (deliver call JSON_parse ev s1), (deliver call JSON_parse ev s2);
      simpl; done.
Qed.

Lemma same_run actions (s1 s2 : State) :
  same_but_console s1 s2 →
  same_but_console (run call JSON_parse actions s1) (run call JSON_parse actions s2).
Proof.
  revert s1 s2. induction actions as [|a actions IH]; intros s1 s2 H; [done|].
  simpl. by apply IH, same_step.
Qed.

(** C4, as the code has it: on a transport that is not Open, [send] returns
    without throwing, hands nothing to any socket, keeps no copy of the
    message (the service and every browser object are as before), and calls
    no subscriber; the only trace of the drop is a warning on the console.
    Whatever happens afterwards, the frames that reach the wire are those
    that would have reached it had [send] not been called. *)
Theorem send_when_not_open_drops type data (s : State) :
  isConnected s = false →
  let r := send type data s in
  r.1 = Ok () ∧
  this r.2 = this s ∧
  wire (browser r.2) = wire (browser s) ∧
  sockets (browser r.2) = sockets (browser s) ∧
  timers (browser r.2) = timers (browser s) ∧
  world r.2 = world s ∧
  invoked r.2 = invoked s ∧
  console (browser r.2) =
    console (browser s) ++ [Warn "WebSocket is not connected"] ∧
  ∀ actions,
    wire (browser (run call JSON_parse actions r.2)) =
    wire (browser (run call JSON_parse actions s)).
Proof.
  intros Hs r. subst r. rewrite (send_not_connected type data s Hs). simpl.
  split_and!; try done.
  intros actions. apply same_run. by repeat split.
Qed.

(** *** What the callbacks leave alone

    The service sends only in [send]. Nothing else it does, and nothing the
    browser makes it do, puts a frame on the wire; and the rest of the
    program changes only through the subscribers. *)

Section Frame.
Variable P : W → Prop.
Hypothesis call_P : ∀ h data w, P w → P (call h data w).2.
#[local] Set Default Proof Using "Type call_P".

Abbreviation sends_nothing := (leaves_wire P).

Lemma quiet_ret {A} (a : A) : sends_nothing (mret a : M State A).
Proof. by intros s H. Qed.

Lemma quiet_throw {A} e : sends_nothing (throw e : M State A).
Proof. by intros s H. Qed.

Lemma quiet_bind {A B} (m : M State A) (k : A → M State B) :
  sends_nothing m → (∀ a, sends_nothing (k a)) → sends_nothing (m ≫= k).
Proof.
  intros Hm Hk s H. unfold_m. destruct (Hm s H) as [Hw HP].
  destruct (m s) as [[a|e] s']; simpl in *; [|done].
  destruct (Hk a s' HP) as [Hw' HP']. by rewrite Hw'.
Qed.

Lemma quiet_try {A} (m : M State A) (h : exn → M State A) :
  sends_nothing m → (∀ e, sends_nothing (h e)) → sends_nothing (try_catch m h).
Proof.
  intros Hm Hh s H. unfold_m. destruct (Hm s H) as [Hw HP].
  destruct (m s) as [[a|e] s']; simpl in *; [done|].
  destruct (Hh e s' HP) as [Hw' HP']. by rewrite Hw'.
Qed.

Lemma quiet_get_bind {A} (k : State → M State A) :
  (∀ s, sends_nothing (k s)) → sends_nothing (get ≫= k).
Proof. intros Hk s H. unfold_m. by apply Hk. Qed.

Lemma quiet_modify (f : State → State) :
  (∀ s, wire (browser (f s)) = wire (browser s) ∧ world (f s) = world s) →
  sends_nothing (modify f).
Proof. intros Hf s H. destruct (Hf s) as [Hw Hwo]. simpl. by rewrite Hw, Hwo. Qed.

Lemma quiet_console_log e : sends_nothing (console_log e : M State ()).
Proof. by apply quiet_modify. Qed.

Lemma quiet_forEach hs data : sends_nothing (forEach call hs data).
Proof.
  induction hs as [|h hs IH]; simpl; [apply quiet_ret|].
  apply quiet_bind; [|done].
  intros s H. unfold invoke. pose proof (call_P h data (world s) H) as HP.
  by destruct (call h data (world s)).
Qed.

Lemma quiet_emit event data : sends_nothing (emit call event data).
Proof.
  apply quiet_get_bind. intros s.
  destruct (messageHandlers (this s) !! event);
    [apply quiet_forEach | apply quiet_ret].
Qed.

Lemma quiet_on event h : sends_nothing (on event h : M State ()).
Proof. by apply quiet_modify. Qed.

Lemma quiet_off event h : sends_nothing (off event h : M State ()).
Proof. by apply quiet_modify. Qed.

Lemma quiet_clearReconnectTimer :
  sends_nothing (clearReconnectTimer : M State ()).
Proof.
  apply quiet_get_bind. intros s.
  destruct (reconnectTimer (this s)); [|apply quiet_ret].
  apply quiet_bind; [|intros _]; by apply quiet_modify.
Qed.

Lemma quiet_scheduleReconnect :
  sends_nothing (scheduleReconnect : M State ()).
Proof.
  apply quiet_get_bind. intros s.
  destruct (reconnectTimer (this s)); [apply quiet_ret|].
  apply quiet_bind; [|intros _]; by apply quiet_modify.
Qed.

Lemma quiet_connect : sends_nothing (connect : M State ()).
Proof.
  apply quiet_try.
  - apply quiet_bind.
    + apply quiet_get_bind. intros s.
      destruct (url_ok (browser s)); [|apply quiet_throw].
      apply quiet_bind; [by apply quiet_modify | intros _; apply quiet_ret].
    + intros i. by apply quiet_modify.
  - intros _. apply quiet_bind; [apply quiet_console_log|].
    intros _. apply quiet_scheduleReconnect.
Qed.

Lemma quiet_disconnect : sends_nothing (disconnect : M State ()).
Proof.
  apply quiet_bind; [apply quiet_clearReconnectTimer|]. intros _.
  apply quiet_get_bind. intros s.
  destruct (ws (this s)); [|apply quiet_ret].
  apply quiet_bind; [|intros _]; by apply quiet_modify.
Qed.

Lemma quiet_connect_if_needed : sends_nothing (connect_if_needed : M State ()).
Proof.
  apply quiet_get_bind. intros s.
  destruct (isConnected s); [apply quiet_ret | apply quiet_connect].
Qed.

Lemma quiet_onopen : sends_nothing (onopen call).
Proof.
  apply quiet_bind; [apply quiet_console_log|]. intros _.
  apply quiet_bind; [apply quiet_clearReconnectTimer|]. intros _.
  apply quiet_emit.
Qed.

Lemma quiet_onmessage frame : sends_nothing (onmessage call JSON_parse frame).
Proof.
  apply quiet_try; [|intros _; apply quiet_console_log].
  destruct (JSON_parse frame) as [data|]; [|apply quiet_throw].
  destruct (get_type data) as [[[]|]|]; try apply quiet_throw;
    try apply quiet_ret; apply quiet_emit.
Qed.

Lemma quiet_onerror : sends_nothing (onerror call).
Proof. apply quiet_bind; [apply quiet_console_log|]. intros _. apply quiet_emit. Qed.

Lemma quiet_onclose : sends_nothing (onclose call).
Proof.
  apply quiet_bind; [apply quiet_console_log|]. intros _.
  apply quiet_bind; [apply quiet_emit|]. intros _.
  apply quiet_scheduleReconnect.
Qed.

Lemma quiet_reconnect_callback : sends_nothing (reconnect_callback : M State ()).
Proof. apply quiet_bind; [apply quiet_console_log|]. intros _. apply quiet_connect. Qed.

Lemma quiet_deliver ev (s s' : State) :
  P (world s) → deliver call JSON_parse ev s = Some s' →
  wire (browser s') = wire (browser s) ∧ P (world s').
Proof.
  intros H. destruct ev as [i|i frame|i|i|id]; simpl; unfold task, state_after.
  - destruct (readyState i s) as [[]|]; try done. intros [= <-].
    by apply (quiet_onopen (set_readyState i OPEN s)).
  - destruct (readyState i s) as [[]|]; try done. intros [= <-].
    by apply quiet_onmessage.
  - destruct (readyState i s) as [r|]; try done. intros [= <-].
    by apply quiet_onerror.
  - destruct (readyState i s) as [[]|]; try done; intros [= <-];
      by apply (quiet_onclose (set_readyState i CLOSED s)).
  - case_decide; [|done]. intros [= <-].
    by apply (quiet_reconnect_callback (expire id s)).
Qed.

End Frame.


(** X20. A frame that is well-formed JSON but carries no string [type]
    reaches no subscriber either and leaves the socket open; it is logged
    only when it is [null]. *)
Lemma untyped_frame_is_discarded i frame data (s : State) :
  readyState i s = Some OPEN →
  JSON_parse frame = Some data →
  (∀ t, get_type data ≠ Ok (Some (JStr t))) →
  ∃ s', deliver call JSON_parse (EvMessage i frame) s = Some s' ∧
        invoked s' = invoked s ∧ world s' = world s ∧ this s' = this s ∧
        sockets (browser s') = sockets (browser s) ∧
        console (browser s') =
          console (browser s) ++
          match data with
          | JNull => [Error "Error parsing WebSocket message:"]
          | _ => []
          end.
Proof.
  intros Hopen Hparse Hty. simpl. rewrite Hopen.
  unfold onmessage, task. rewrite Hparse.
  eexists. split; [done|].
  destruct data as [| | | | |fields]; simpl; rewrite ?app_nil_r; try done.
  destruct (obj_get "type" fields) as [[| | |t| |]|] eqn:Hg; simpl;
    rewrite ?app_nil_r; try done.
  exfalso. apply (Hty t). simpl. by rewrite Hg.
Qed.



(** What [disconnect] itself achieves: it returns, the service forgets its
    socket and its timer, and the timer it had scheduled is no longer
    pending. *)
Lemma disconnect_cancels_timer (s : State) :
  let r := disconnect s in
  r.1 = Ok () ∧ ws (this r.2) = None ∧ reconnectTimer (this r.2) = None ∧
  match reconnectTimer (this s) with
  | Some id => id ∉ timers (browser r.2)
  | None => timers (browser r.2) = timers (browser s)
  end.
Proof.
  unfold disconnect, clearReconnectTimer, ws_close. unfold_m.
  unfold set_this, set_browser.
  destruct s as [[w t m] [so ti nt wi co u] wo inv]. simpl.
  destruct t as [id|], w as [i|]; simpl; split_and!; try done;
    intros [_ Hn]%elem_of_difference; by apply Hn, elem_of_singleton.
Qed.

Lemma forEach_returns hs data (s : State) :
  Forall (λ h, ∀ w, (call h data w).1 = Ok ()) hs →
  (forEach call hs data s).1 = Ok ().
Proof.
  revert s. induction hs as [|h hs IH]; intros s Hhs; [done|].
  apply Forall_cons in Hhs as [Hh Hhs]. simpl. unfold_m. unfold invoke.
  specialize (Hh (world s)). destruct (call h data (world s)) as [r w].
  simpl in Hh. subst r. by apply IH.
Qed.

(** X21. The close event that follows a [disconnect] undoes it. Whenever
    the service holds a socket that is connecting or open and no subscriber
    of 'disconnected' throws, the close event of that socket, delivered
    after [disconnect], leaves a reconnect timer pending. *)
Lemma close_event_after_disconnect_rearms i (s : State) :
  ws (this s) = Some i →
  readyState i s = Some OPEN ∨ readyState i s = Some CONNECTING →
  Forall (λ h, ∀ w, (call h (VJson JNull) w).1 = Ok ())
         (handlers_of "disconnected" s) →
  ∃ s2, deliver call JSON_parse (EvClose i) (state_after (disconnect s))
          = Some s2 ∧
        ws (this s2) = None ∧
        reconnectTimer (this s2) = Some (next_timer (browser s)) ∧
        next_timer (browser s) ∈ timers (browser s2).
Proof.
  intros Hws Hst Hret.
  set (s1 := state_after (disconnect s)).
  assert (H1 : this s1 = Build_WebSocketService None None (messageHandlers (this s))
               ∧ next_timer (browser s1) = next_timer (browser s)
               ∧ readyState i s1 = Some CLOSING).
  { subst s1. unfold disconnect, clearReconnectTimer, ws_close, readyState in *.
    unfold_m. unfold set_this, set_browser.
    destruct s as [[w t m] [so ti nt wi co u] wo inv]. simpl in *. subst w.
    assert (Hlt : (i < length so)%nat).
    { destruct Hst as [H|H]; by apply lookup_lt_Some in H. }
    destruct t as [id|]; simpl;
      (destruct Hst as [-> | ->]; simpl;
       split_and!; try done; by apply list_lookup_insert_eq). }
  destruct H1 as (Hthis & Hnt & Hready).
  simpl. rewrite Hready. eexists. split; [done|].
  unfold task, onclose. unfold_m. simpl.
  match goal with
  | |- context [emit call "disconnected" (VJson JNull) ?st] =>
      pose proof (emit_spec call "disconnected" (VJson JNull) st) as He;
      assert (Hok : (emit call "disconnected" (VJson JNull) st).1 = Ok ());
      [|destruct (emit call "disconnected" (VJson JNull) st) as [r s']]
  end.
  { unfold emit. unfold_m. simpl. rewrite Hthis. simpl.
    unfold handlers_of in Hret.
    destruct (messageHandlers (this s) !! "disconnected") as [hs|]; [|done].
    by apply forEach_returns. }
  cbv zeta in He. simpl in He, Hok. destruct He as (Ht' & Hb' & _). subst r.
  unfold scheduleReconnect. unfold_m. unfold set_this, set_browser. simpl.
  rewrite Ht', Hthis, Hb'. simpl. rewrite Hnt.
  split_and!; [rewrite Ht'; simpl; by rewrite Hthis | done |].
  apply elem_of_union. right. by apply elem_of_singleton.
Qed.

End Transport.




(** C1 fails on the code: [disconnect] cancels the timer and closes the
    socket, but the socket's [onclose] callback stays installed. When the
    browser then reports the close, the callback arms a new reconnect
    timer, and its expiry opens a new connection although nobody called
    [connect]. The same happens when [disconnect] is called during the
    handshake. *)
Theorem disconnect_then_close_event_reconnects :
  let deliver_all := run Scenario.call Scenario.JSON_parse in
  let s1 := Scenario.closed_by_caller in
  let s2 := deliver_all [Event (EvClose 0)] s1 in
  let s3 := deliver_all [Event (EvTimeout 1)] s2 in
  let t1 := Scenario.abandoned in
  let t2 := deliver_all [Event (EvClose 0)] t1 in
  let t3 := deliver_all [Event (EvTimeout 1)] t2 in
  (ws (this s1) = None ∧ reconnectTimer (this s1) = None ∧
   timers (browser s1) = ∅ ∧ sockets (browser s1) = [CLOSING]) ∧
  (reconnectTimer (this s2) = Some 1%positive ∧
   timers (browser s2) = {[1%positive]}) ∧
  (sockets (browser s3) = [CLOSED; CONNECTING] ∧ ws (this s3) = Some 1%nat) ∧
  (ws (this t1) = None ∧ timers (browser t1) = ∅ ∧
   sockets (browser t1) = [CLOSING]) ∧
  (reconnectTimer (this t2) = Some 1%positive ∧
   timers (browser t2) = {[1%positive]}) ∧
  (sockets (browser t3) = [CLOSED; CONNECTING] ∧ ws (this t3) = Some 1%nat).
Proof. cbv zeta. split_and!; by vm_compute. Qed.

Lemma send_when_not_open_drops_witness :
  isConnected Scenario.subscribed = false ∧
  (send "audio_chunk" [("data", JStr "AAAA")] Scenario.subscribed).1 = Ok () ∧
  wire (browser (run Scenario.call Scenario.JSON_parse
                   [Connect; Event (EvOpen 0)]
                   (state_after (send "audio_chunk" [("data", JStr "AAAA")]
                                   Scenario.subscribed)))) = [].
Proof.
  assert (H : isConnected Scenario.subscribed = false) by (by vm_compute).
  split; [exact H|].
  destruct (send_when_not_open_drops Scenario.call Scenario.JSON_parse
              "audio_chunk" [("data", JStr "AAAA")] Scenario.subscribed H)
    as (Hok & _ & _ & _ & _ & _ & _ & _ & Hlater).
  split; [exact Hok|].
  unfold state_after. rewrite Hlater. by vm_compute.
Defined.

(** C4, as stated, fails: a [send] on a disconnected service with a
    subscriber of 'error' registered calls nobody. *)
Lemma dropped_send_emits_no_error_event :
  handlers_of "error" Scenario.subscribed = [3%nat] ∧
  isConnected Scenario.subscribed = false ∧
  invoked (state_after (send "audio_chunk" [("data", JStr "AAAA")]
                          Scenario.subscribed)) = [] ∧
  ¬ reports_drop "audio_chunk" [("data", JStr "AAAA")] Scenario.subscribed.
Proof.
  assert (Hh : handlers_of "error" Scenario.subscribed = [3%nat])
    by (by vm_compute).
  assert (Hi : invoked (state_after (send "audio_chunk" [("data", JStr "AAAA")]
                          Scenario.subscribed)) = []) by (by vm_compute).
  split_and!; [done | by vm_compute | done |].
  intros Hrep. specialize (Hrep 3%nat). rewrite Hh, Hi in Hrep.
  rewrite drop_nil in Hrep. simpl in Hrep.
  apply (not_elem_of_nil 3%nat), Hrep, list_elem_of_here.
Qed.

(** ** The recorder hook *)

Module RecorderProps.
Import Recorder.

Lemma stop_media_recorder_spec s :
  hook (stop_media_recorder s) = hook s ∧ refs (stop_media_recorder s) = refs s ∧
  contexts (media (stop_media_recorder s)) = contexts (media s) ∧
  streams (media (stop_media_recorder s)) = streams (media s) ∧
  frames (media (stop_media_recorder s)) = frames (media s) ∧
  match mediaRecorderRef (refs s) with
  | Some r => ∀ mr, recorders (media (stop_media_recorder s)) !! r = Some mr →
                    state mr = inactive
  | None => True
  end.
Proof.
  unfold stop_media_recorder, recorder_state.
  destruct (mediaRecorderRef (refs s)) as [r|]; [|done].
  destruct (recorders (media s) !! r) as [[[] cb p]|] eqn:Hr; simpl;
    split_and!; try done; intros mr;
    rewrite ?list_lookup_alter_eq, Hr; simpl; intros; by simplify_eq.
Qed.

Lemma stop_all_tracks_spec s :
  hook (stop_all_tracks s) = hook s ∧ refs (stop_all_tracks s) = refs s ∧
  recorders (media (stop_all_tracks s)) = recorders (media s) ∧
  contexts (media (stop_all_tracks s)) = contexts (media s) ∧
  frames (media (stop_all_tracks s)) = frames (media s) ∧
  match streamRef (refs s) with
  | Some i => ∀ tracks, streams (media (stop_all_tracks s)) !! i = Some tracks →
                        Forall (λ t, t = ended) tracks
  | None => True
  end.
Proof.
  unfold stop_all_tracks.
  destruct (streamRef (refs s)) as [i|]; [|done]. simpl.
  split_and!; try done. intros tracks. rewrite list_lookup_alter_eq.
  destruct (streams (media s) !! i) as [ts|]; simpl; intros; simplify_eq.
  apply Forall_fmap, Forall_true. done.
Qed.

Lemma close_audio_context_spec s :
  hook (close_audio_context s) = hook s ∧ refs (close_audio_context s) = refs s ∧
  recorders (media (close_audio_context s)) = recorders (media s) ∧
  streams (media (close_audio_context s)) = streams (media s) ∧
  frames (media (close_audio_context s)) = frames (media s) ∧
  match audioContextRef (refs s) with
  | Some c => ∀ st, contexts (media (close_audio_context s)) !! c = Some st →
                    st = closed
  | None => True
  end.
Proof.
  unfold close_audio_context.
  destruct (audioContextRef (refs s)) as [c|]; [|done].
  destruct (contexts (media s) !! c) as [[]|] eqn:Hc; simpl;
    split_and!; try done; intros st Hst;
    try (apply list_lookup_insert_Some in Hst as [(_ & <- & _)|[? _]]; done);
    by simplify_eq.
Qed.

Lemma cancel_pending_frame_spec s :
  hook (cancel_pending_frame s) = hook s ∧ refs (cancel_pending_frame s) = refs s ∧
  recorders (media (cancel_pending_frame s)) = recorders (media s) ∧
  streams (media (cancel_pending_frame s)) = streams (media s) ∧
  contexts (media (cancel_pending_frame s)) = contexts (media s) ∧
  match animationFrameRef (refs s) with
  | Some id => id ∉ frames (media (cancel_pending_frame s))
  | None => True
  end.
Proof.
  unfold cancel_pending_frame.
  destruct (animationFrameRef (refs s)) as [id|]; [|done]. simpl.
  split_and!; try done.
  intros [_ Hn]%elem_of_difference. by apply Hn, elem_of_singleton.
Qed.

Lemma stopRecording_refs s : refs (stopRecording s) = no_refs.
Proof. done. Qed.

Lemma stopRecording_hook s :
  hook (stopRecording s) = Build_Hook false false (Num 0) (error (hook s)).
Proof.
  unfold stopRecording. simpl.
  destruct (cancel_pending_frame_spec
              (close_audio_context (stop_all_tracks (stop_media_recorder s))))
    as (-> & _).
  destruct (close_audio_context_spec (stop_all_tracks (stop_media_recorder s)))
    as (-> & _).
  destruct (stop_all_tracks_spec (stop_media_recorder s)) as (-> & _).
  destruct (stop_media_recorder_spec s) as (-> & _).
  done.
Qed.



(** *** The closures the recorders hold *)

Lemma fmap_alter_same {A B} (f : A → B) (g : A → A) i (l : list A) :
  (∀ x, f (g x) = f x) → f <$> alter g i l = f <$> l.
Proof.
  intros Hfg. revert i. induction l as [|x l IH]; intros [|i]; csimpl;
    rewrite ?Hfg, ?IH; done.
Qed.

Lemma callbacks_set_recorder_state r st s :
  callbacks (set_recorder_state r st s) = callbacks s.
Proof. unfold callbacks. simpl. by apply fmap_alter_same. Qed.

Lemma callbacks_stopRecording s : callbacks (stopRecording s) = callbacks s.
Proof.
  unfold callbacks.
  change (recorders (media (stopRecording s))) with
    (recorders (media (cancel_pending_frame (close_audio_context
       (stop_all_tracks (stop_media_recorder s)))))).
  destruct (cancel_pending_frame_spec
              (close_audio_context (stop_all_tracks (stop_media_recorder s))))
    as (_ & _ & -> & _).
  destruct (close_audio_context_spec (stop_all_tracks (stop_media_recorder s)))
    as (_ & _ & -> & _).
  destruct (stop_all_tracks_spec (stop_media_recorder s)) as (_ & _ & -> & _).
  unfold stop_media_recorder.
  repeat case_match; try done; apply callbacks_set_recorder_state.
Qed.

Lemma callbacks_calculateAudioLevel r p l s :
  callbacks (calculateAudioLevel r p l s) = callbacks s.
Proof. unfold calculateAudioLevel. by repeat case_match. Qed.

Lemma callbacks_startRecording_granted c tracks outcome l s :
  callbacks (startRecording_granted c tracks outcome l s) = callbacks s ∨
  callbacks (startRecording_granted c tracks outcome l s)
    = callbacks s ++ [sr_onAudioData c].
Proof.
  unfold startRecording_granted. destruct outcome; [by left | by left |].
  right. rewrite callbacks_calculateAudioLevel. unfold callbacks. simpl.
  by rewrite fmap_app.
Qed.

Lemma callbacks_frame id l s :
  callbacks (step (Frame id l) s) = callbacks s.
Proof.
  simpl. case_decide; [|done]. by rewrite callbacks_calculateAudioLevel.
Qed.

Lemma callbacks_recorder_onerror s :
  callbacks (recorder_onerror s) = callbacks s.
Proof. unfold recorder_onerror. by rewrite callbacks_stopRecording. Qed.


(** *** The level meter *)

Lemma sum_bytes_from acc (l : list Byte.byte) :
  foldl (λ acc val, acc + Z.of_N (Byte.to_N val)) acc l = acc + sum_bytes l.
Proof.
  unfold sum_bytes. revert acc. induction l as [|b l IH]; intros acc; simpl.
  - lia.
  - rewrite (IH (acc + _)), (IH (0 + _)). lia.
Qed.

Lemma sum_bytes_cons b l :
  sum_bytes (b :: l) = Z.of_N (Byte.to_N b) + sum_bytes l.
Proof. unfold sum_bytes at 1. simpl. by rewrite sum_bytes_from. Qed.

Lemma sum_bytes_bounds l :
  0 ≤ sum_bytes l ≤ 255 * Z.of_nat (length l).
Proof.
  induction l as [|b l IH]; [done|].
  rewrite sum_bytes_cons. pose proof (Byte.to_N_bounded b). simpl length. lia.
Qed.

Lemma sum_bytes_zero l : all_zero l → sum_bytes l = 0.
Proof.
  induction 1 as [|b l Hb _ IH]; [done|].
  rewrite sum_bytes_cons, Hb, IH. done.
Qed.

Lemma average_bounds l :
  l ≠ [] →
  ∃ a, average l = Num a ∧ (0 <= a)%Q ∧ (a <= 255)%Q ∧
       (all_zero l → (a == 0)%Q).
Proof.
  intros Hl. destruct l as [|b l]; [done|]. eexists. split; [done|].
  pose proof (sum_bytes_bounds (b :: l)) as [Hlo Hhi].
  set (n := Z.of_nat (length (b :: l))) in *.
  assert (Hn : (0 < inject_Z n)%Q).
  { change 0%Q with (inject_Z 0). rewrite <- Zlt_Qlt. subst n. simpl length. lia. }
  split_and!.
  - apply Qle_shift_div_l; [done|]. rewrite Qmult_0_l.
    change 0%Q with (inject_Z 0). by rewrite <- Zle_Qle.
  - apply Qle_shift_div_r; [done|].
    change 255%Q with (inject_Z 255). rewrite <- inject_Z_mult.
    by rewrite <- Zle_Qle.
  - intros Hz. rewrite (sum_bytes_zero _ Hz). unfold Qdiv. apply Qmult_0_l.
Qed.

Lemma normalizedLevel_spec l :
  l ≠ [] →
  in_range (normalizedLevel l) ∧ (all_zero l → level_is (normalizedLevel l) 0).
Proof.
  intros Hl. destruct (average_bounds l Hl) as (a & Ha & Hlo & Hhi & Hz).
  unfold normalizedLevel. rewrite Ha. unfold in_range, level_is.
  assert (H0 : (0 <= a / 255 * 100)%Q).
  { apply Qmult_le_0_compat; [|lra]. apply Qle_shift_div_l; lra. }
  split_and!.
  - apply Q.min_glb; [lra | done].
  - apply Q.le_min_l.
  - intros Hall. specialize (Hz Hall).
    assert (Hv : (a / 255 * 100 == 0)%Q).
    { unfold Qdiv. setoid_rewrite Hz. reflexivity. }
    apply Qle_antisym.
    + apply (Qle_trans _ (a / 255 * 100)); [apply Q.le_min_r | lra].
    + apply Q.min_glb; lra.
Qed.

Lemma calculateAudioLevel_quiet r p l s :
  quiet_without_analyser s → quiet_without_analyser (calculateAudioLevel r p l s).
Proof.
  unfold quiet_without_analyser, calculateAudioLevel.
  destruct (analyserRef (refs s)) eqn:Ha; [|by rewrite Ha].
  intros _. destruct (r && negb p); simpl; by rewrite Ha.
Qed.

Lemma step_quiet a s :
  quiet_without_analyser s → quiet_without_analyser (step a s).
Proof.
  intros Hs. destruct a as [|msg|c tracks outcome l| | |r p l|id l|]; simpl.
  - done.
  - done.
  - destruct outcome; [done | done |].
    apply calculateAudioLevel_quiet. done.
  - intros _. by rewrite stopRecording_hook.
  - unfold pauseRecording. repeat (case_match; try done).
  - unfold resumeRecording. repeat (case_match; try done).
    apply calculateAudioLevel_quiet. done.
  - case_decide; [|done]. apply calculateAudioLevel_quiet. done.
  - intros _. unfold recorder_onerror. by rewrite stopRecording_hook.
Qed.

Lemma run_quiet actions s :
  quiet_without_analyser s → quiet_without_analyser (run actions s).
Proof.
  revert s. induction actions as [|a actions IH]; intros s Hs; [done|].
  simpl. apply IH, step_quiet, Hs.
Qed.

(** C9, as the code has it: for a frame with at least one bin the meter
    sets a level in [0,100], and level 0 when every bin is zero. Without an
    analyser (no input) it returns at once and leaves the state as it is;
    in every state the hook can reach, the level is then 0 and the hook is
    not recording, so [isActive] is false. [isActive] itself is
    [isRecording && !isMuted]: it is not derived from the level. *)
Theorem calculateAudioLevel_in_range (r p : bool) (dataArray : list Byte.byte)
    (s : State) :
  dataArray ≠ [] →
  let s' := calculateAudioLevel r p dataArray s in
  match analyserRef (refs s) with
  | Some _ =>
      in_range (audioLevel (hook s')) ∧
      (all_zero dataArray → level_is (audioLevel (hook s')) 0)
  | None => s' = s
  end ∧
  (∀ actions isMuted,
     let t := run actions initial in
     analyserRef (refs t) = None →
     level_is (audioLevel (hook t)) 0 ∧ isActive isMuted t = false) ∧
  (∀ isMuted, isActive isMuted s' = isRecording (hook s) && negb isMuted).
Proof.
  intros Hl s'. subst s'. split_and!.
  - unfold calculateAudioLevel. destruct (analyserRef (refs s)); [|done].
    destruct (r && negb p); simpl; apply normalizedLevel_spec, Hl.
  - intros actions isMuted t Ht.
    destruct (run_quiet actions initial) as [Hr Hlev]; [by intros _ | done |].
    fold t in Hr, Hlev. unfold isActive. rewrite Hr, Hlev. simpl. split; [lra|done].
  - intros isMuted. unfold isActive, calculateAudioLevel.
    destruct (analyserRef (refs s)); [|done].
    by destruct (r && negb p).
Qed.

Lemma calculateAudioLevel_in_range_witness :
  replicate frequencyBinCount Byte.xff ≠ [] ∧
  in_range (audioLevel (hook
    (calculateAudioLevel true false (replicate frequencyBinCount Byte.xff)
       capturing))).
Proof.
  assert (H : replicate frequencyBinCount Byte.xff ≠ []) by done.
  split; [exact H|].
  pose proof (calculateAudioLevel_in_range true false _ capturing H) as [Hr _].
  change (analyserRef (refs capturing)) with (Some 0%nat) in Hr.
  exact (proj1 Hr).
Defined.

(** C9, as stated, fails: while recording and not muted, a frame of zeros
    gives level 0 and [isActive] stays [true]. *)
Lemma silent_frame_still_active :
  let zeros := replicate frequencyBinCount Byte.x00 in
  let s' := calculateAudioLevel true false zeros capturing in
  all_zero zeros ∧
  level_is (audioLevel (hook s')) 0 ∧
  isActive false s' = true ∧
  ¬ silent_frame_inactive false zeros capturing.
Proof.
  cbv zeta.
  assert (Hz : all_zero (replicate frequencyBinCount Byte.x00)).
  { apply Forall_replicate. done. }
  split_and!; [done | by vm_compute | by vm_compute |].
  intros H. destruct (H Hz) as [_ Hact]. by vm_compute in Hact.
Qed.

End RecorderProps.

(** ** The session controller *)

Module AppProps.
Import App.

Lemma handleAudioData_muted cb audioData (s : Total) :
  cb_isMuted cb = true → handleAudioData cb audioData s = s.
Proof.
  intros H. unfold handleAudioData. rewrite H. by rewrite andb_false_r.
Qed.

(** Neither the click on the mute button nor the continuation that runs
    when the mute request returns touches the service or the browser. *)
Lemma mute_leaves_transport_alone (s : Total) isRecording ok :
  this (handleToggleMute s) = this s ∧
  browser (handleToggleMute s) = browser s ∧
  this (continue (AwaitMute isRecording) ok s) = this s ∧
  browser (continue (AwaitMute isRecording) ok s) = browser s.
Proof.
  unfold handleToggleMute, continue.
  destruct (isMuted (react (world s))), ok, isRecording; done.
Qed.

(** *** No microphone chunk ever reaches the wire

    [startRecording] is only called from the timer of
    [handleToggleConnection], created while [isConnected] was false, and
    from the un-mute continuation, created while [isMuted] was true. The
    [handleAudioData] it hands to the recorder is the one of that render, so
    its test [isConnected && !isMuted] fails whenever it is called. *)

Lemma quiet_world_set_react f w : quiet_world w → quiet_world (set_react f w).
Proof. done. Qed.

Lemma quiet_world_stopRecording w :
  quiet_world w → quiet_world (set_recorder Recorder.stopRecording w).
Proof.
  intros [Hp Hr]. split; [done|]. simpl.
  by rewrite RecorderProps.callbacks_stopRecording.
Qed.

Lemma quiet_world_await p w :
  pending_inert p → quiet_world w → quiet_world (await p w).
Proof.
  intros Hp [Hps Hr]. split; [|done]. simpl.
  apply Forall_app. split; [done|]. by constructor.
Qed.

Lemma quiet_world_delete k w :
  quiet_world w → quiet_world (set_pending (delete k) w).
Proof.
  intros [Hps Hr]. split; [|done]. simpl.
  rewrite delete_take_drop. apply Forall_app.
  split; [by apply Forall_take | by apply Forall_drop].
Qed.

Lemma call_quiet h data w : quiet_world w → quiet_world (call h data w).2.
Proof.
  intros Hw. unfold call. destruct h.2 as [|[]| | | | | | |]; simpl; try done.
  - by apply quiet_world_stopRecording.
  - by destruct (status_is_truthy_non_string data).
Qed.

Lemma startRecording_of_inert w :
  isConnected (react w) = false ∨ isMuted (react w) = true →
  inert (Recorder.sr_onAudioData (startRecording_of w)).
Proof.
  unfold inert. simpl. intros [->| ->]; [done|]. by rewrite andb_false_r.
Qed.

Lemma never_sends_in_world f (s : Total) :
  (quiet_world (world s) → quiet_world (f (world s))) →
  never_sends s → never_sends (in_world f s).
Proof. intros Hf [Hw Hq]. split; [done|]. by apply Hf. Qed.

Lemma never_sends_m (m : M Total ()) (s : Total) :
  leaves_wire quiet_world m → never_sends s → never_sends (state_after (m s)).
Proof.
  intros Hm [Hw Hq]. destruct (Hm s Hq) as [Hw' Hq'].
  unfold state_after. split; [by rewrite Hw', Hw | done].
Qed.

Lemma never_sends_startRecording start (s : Total) :
  inert (Recorder.sr_onAudioData start) →
  never_sends s → never_sends (startRecording start s).
Proof.
  intros Hu. apply never_sends_in_world. intros Hq.
  by apply quiet_world_await.
Qed.

Lemma never_sends_continue p ok (s : Total) :
  pending_inert p → never_sends s → never_sends (continue p ok s).
Proof.
  intros Hp Hs.
  destruct p as [m start|r|r|c r start|m start|start|cb b]; simpl in *.
  - destruct ok.
    + apply never_sends_in_world; [by apply quiet_world_await|].
      apply never_sends_m; [|done]. apply (quiet_connect call), call_quiet.
    + by apply never_sends_in_world.
  - destruct ok; [|done].
    assert (never_sends (state_after (disconnect s))) as Hd.
    { apply never_sends_m; [|done]. apply (quiet_disconnect call), call_quiet. }
    destruct r; [|done].
    apply never_sends_in_world; [apply quiet_world_stopRecording | done].
  - destruct ok; [|done]. destruct r.
    + apply never_sends_in_world; [apply quiet_world_stopRecording|].
      by apply never_sends_in_world.
    + by apply never_sends_in_world.
  - destruct ok; [|done].
    destruct (c && negb r).
    + apply never_sends_startRecording; [done|]. by apply never_sends_in_world.
    + by apply never_sends_in_world.
  - destruct (negb m); [|done]. by apply never_sends_startRecording.
  - done.
  - destruct ok; [|done]. unfold handleAudioData. unfold inert in Hp.
    rewrite Hp. by apply never_sends_in_world.
Qed.

Lemma never_sends_foldl {A} (f : Total → A → Total) (l : list A) (s : Total) :
  (∀ s a, never_sends s → never_sends (f s a)) →
  never_sends s → never_sends (foldl f s l).
Proof.
  intros Hf. revert s. induction l as [|a l IH]; intros s Hs; [done|].
  simpl. by apply IH, Hf.
Qed.

Lemma never_sends_render (s : Total) : never_sends s → never_sends (render s).
Proof.
  intros Hs. unfold render, effect, effect_cleanup.
  apply never_sends_foldl.
  { intros s' eh. apply never_sends_m, (quiet_on call), call_quiet. }
  apply never_sends_in_world; [done|].
  apply never_sends_foldl; [|done].
  intros s' e. apply never_sends_m, (quiet_off call), call_quiet.
Qed.

Lemma never_sends_mounted : never_sends mounted.
Proof.
  unfold mounted, effect, meeting_panel_effect.
  apply never_sends_foldl.
  { intros s' eh. apply never_sends_m, (quiet_on call), call_quiet. }
  apply never_sends_m; [apply (quiet_connect_if_needed call), call_quiet|].
  apply never_sends_m; [apply (quiet_on call), call_quiet|].
  split; [done|]. split; by constructor.
Qed.

Section Reachable.
Variable JSON_parse : string → option json.

Lemma never_sends_step a (s : Total) :
  never_sends s → never_sends (step JSON_parse a s).
Proof.
  intros Hs. pose proof Hs as [Hw [Hp Hr]].
  destruct a as [| | |k ok|k result|r size b|id l| |t|ev]; simpl.
  - unfold handleToggleConnection.
    destruct (isConnected (react (world s))) eqn:Hc.
    + apply never_sends_in_world; [by apply quiet_world_await | done].
    + apply never_sends_in_world; [|done]. intros Hq.
      apply quiet_world_await; [|done].
      apply startRecording_of_inert. by left.
  - destruct (isConnected (react (world s))); [|done].
    unfold handleToggleMute.
    destruct (isMuted (react (world s))) eqn:Hm.
    + apply never_sends_in_world; [|done]. apply quiet_world_await.
      apply startRecording_of_inert. by right.
    + apply never_sends_in_world; [by apply quiet_world_await | done].
  - by apply never_sends_render.
  - destruct (pending (world s) !! k) as [p|] eqn:Hk; [|done].
    assert (pending_inert p) as Hpu.
    { rewrite Forall_forall in Hp. eapply Hp, list_elem_of_lookup_2, Hk. }
    assert (never_sends (in_world (set_pending (delete k)) s)) as Hs'.
    { apply never_sends_in_world; [apply quiet_world_delete | done]. }
    destruct p; try done; by apply never_sends_continue.
  - destruct (pending (world s) !! k) as [p|] eqn:Hk; [|done].
    destruct p as [| | | | |start|]; try done.
    assert (inert (Recorder.sr_onAudioData start)) as Hu.
    { rewrite Forall_forall in Hp.
      apply (Hp (AwaitGetUserMedia start)), list_elem_of_lookup_2 with k, Hk. }
    apply never_sends_in_world; [|done]. intros Hq.
    apply (quiet_world_delete k) in Hq. destruct Hq as [Hp' Hr'].
    split; [done|]. simpl. destruct result as [[[tracks outcome] l]|].
    + destruct (RecorderProps.callbacks_startRecording_granted start tracks
                  outcome l (recorder (world s))) as [-> | ->]; [done|].
      apply Forall_app. split; [done|]. by constructor.
    + done.
  - unfold ondataavailable.
    destruct (Recorder.recorders _ !! r) as [mr|] eqn:Hmr; [|done].
    destruct (_ && _); [|done].
    apply never_sends_in_world; [|done]. apply quiet_world_await. simpl.
    rewrite Forall_forall in Hr. apply Hr. unfold Recorder.callbacks.
    apply list_elem_of_fmap. exists mr. split; [done|].
    by eapply list_elem_of_lookup_2.
  - apply never_sends_in_world; [|done]. intros [Hp' Hr']. split; [done|].
    cbn [recorder set_recorder]. by rewrite RecorderProps.callbacks_frame.
  - apply never_sends_in_world; [|done]. intros [Hp' Hr']. split; [done|].
    cbn [recorder set_recorder].
    by rewrite RecorderProps.callbacks_recorder_onerror.
  - by apply never_sends_in_world.
  - destruct (deliver call JSON_parse ev s) as [s'|] eqn:Hd; [|done]. simpl.
    destruct (quiet_deliver call JSON_parse quiet_world call_quiet ev s s')
      as [Hw' Hq']; [done | done |].
    split; [by rewrite Hw', Hw | done].
Qed.

(** In every state the application can reach, nothing has been handed to
    the socket: the recorder's chunks are dropped by [handleAudioData],
    muted or not. *)
Lemma wire_stays_empty actions :
  wire (browser (run JSON_parse actions mounted)) = [].
Proof.
  assert (H : never_sends (run JSON_parse actions mounted)); [|by destruct H].
  unfold run. apply never_sends_foldl; [|apply never_sends_mounted].
  intros s a. apply never_sends_step.
Qed.

End Reachable.

(** C8 fails on the code. Two runs the user can produce end muted with the
    capture running: muting before the one-second timer of
    [handleToggleConnection] expires (the timer callback tests the [isMuted]
    of the render in which the button was pressed), and muting while the
    permission prompt opened by an un-mute is still pending. The recorder
    then goes on producing chunks, which reach [onAudioData]. The rest of
    the claim holds: in no reachable state has a chunk reached the wire, and
    muting leaves the service and the socket as they are. *)
Theorem capture_runs_while_muted :
  let s := run Scenario.JSON_parse mute_before_timer mounted in
  let t := run Scenario.JSON_parse mute_during_prompt mounted in
  let t' := run Scenario.JSON_parse
              [DataAvailable 0 4 "AAAA"; Settle 0 true] t in
  (isMuted (react (world s)) = true ∧ capture_running s) ∧
  (isMuted (react (world t)) = true ∧ capture_running t) ∧
  handed (world t') = [(Build_AudioDataCallback true true, "AAAA")] ∧
  wire (browser t') = [] ∧
  sockets (browser t') = [OPEN] ∧
  ws (this t') = Some 0%nat ∧
  (∀ JSON_parse actions,
     wire (browser (run JSON_parse actions mounted)) = []) ∧
  (∀ (u : Total) isRecording ok,
     this (handleToggleMute u) = this u ∧
     browser (handleToggleMute u) = browser u ∧
     this (continue (AwaitMute isRecording) ok u) = this u ∧
     browser (continue (AwaitMute isRecording) ok u) = browser u).
Proof.
  cbv zeta. split_and!.
  - by vm_compute.
  - exists 0%nat. eexists. split; by vm_compute.
  - by vm_compute.
  - exists 0%nat. eexists. split; by vm_compute.
  - by vm_compute.
  - by vm_compute.
  - by vm_compute.
  - by vm_compute.
  - apply wire_stays_empty.
  - apply mute_leaves_transport_alone.
Qed.

End AppProps.

(** ** The Segmentation Buffer *)

Module SegmentationProps.
Import Segmentation.

Section Buffer.
Variable cfg : Config.
























End Buffer.



(** The scenarios of section 8 on the model. *)
Example scenario_utterance_then_silence :
  (λ g, (startMs g, endMs g)) <$>
    segment_stream defaults utterance_then_silence = [(0, 900)].
Proof. by vm_compute. Qed.

Example scenario_duration_cap :
  (λ g, (startMs g, endMs g)) <$>
    segment_stream defaults
      ((λ i, chunk i (Z.of_nat i * 1000) true) <$> seq 0 21)
  = [(0, 9000); (10000, 19000); (20000, 20000)].
Proof. by vm_compute. Qed.

End SegmentationProps.

(** ** More on the transport: frames sent, timers, subscriptions *)

Section MoreTransport.
Context {Handler : Type} `{!EqDecision Handler} {W : Type}.
Variable call : Handler → value → W → Res () * W.
Variable JSON_parse : string → option json.

Abbreviation State := (St Handler W).

Lemma obj_set_keys k v o :
  (obj_set k v o).*1 = if decide (k ∈ o.*1) then o.*1 else o.*1 ++ [k].
Proof.
  induction o as [|[k' v'] o IH]; [done|].
  rewrite fmap_cons. cbn [obj_set fst].
  destruct (decide (k = k')) as [->|Hne].
  - rewrite decide_True by apply list_elem_of_here. by rewrite fmap_cons.
  - rewrite fmap_cons, IH. cbn [fst].
    destruct (decide (k ∈ o.*1)) as [Hin|Hin].
    + by rewrite decide_True by (by apply list_elem_of_further).
    + rewrite decide_False; [done|].
      by intros [?|?]%elem_of_cons.
Qed.

Lemma obj_set_NoDup k v o : NoDup o.*1 → NoDup (obj_set k v o).*1.
Proof.
  intros Hnd. rewrite obj_set_keys. case_decide; [done|].
  apply NoDup_app. split_and!; [done| |apply NoDup_singleton].
  intros x Hx ->%list_elem_of_singleton. done.
Qed.

Lemma obj_get_cons k k' v o :
  obj_get k ((k', v) :: o) =
  match obj_get k o with
  | Some x => Some x
  | None => if decide (k' = k) then Some v else None
  end.
Proof.
  unfold obj_get. rewrite filter_cons. simpl.
  destruct (decide (k' = k)) as [->|Hne].
  - destruct (filter _ o) as [|y l]; [done|].
    change (last ((k, v) :: y :: l)) with (last (y :: l)).
    destruct (last (y :: l)) as [z|] eqn:E; [done|].
    by apply last_None in E.
  - by destruct (last (filter _ o)).
Qed.

Lemma obj_get_absent k o : k ∉ o.*1 → obj_get k o = None.
Proof.
  induction o as [|[k' v'] o IH]; [done|].
  rewrite fmap_cons. intros [Hne Hk]%not_elem_of_cons.
  rewrite obj_get_cons, IH by done. cbn [fst] in Hne.
  by rewrite decide_False.
Qed.

Lemma obj_get_set_other k k' v o : k ≠ k' → obj_get k (obj_set k' v o) = obj_get k o.
Proof.
  intros Hne. induction o as [|[k0 v0] o IH]; simpl.
  - rewrite obj_get_cons. rewrite decide_False by done. done.
  - destruct (decide (k' = k0)) as [->|Hne0].
    + rewrite !obj_get_cons. rewrite !decide_False by done. done.
    + rewrite !obj_get_cons, IH. done.
Qed.

Lemma obj_get_set_same k v o : NoDup o.*1 → obj_get k (obj_set k v o) = Some v.
Proof.
  induction o as [|[k0 v0] o IH]; simpl; intros Hnd.
  - rewrite obj_get_cons. by rewrite decide_True.
  - apply NoDup_cons in Hnd as [Hk0 Hnd].
    destruct (decide (k = k0)) as [->|Hne].
    + rewrite obj_get_cons, obj_get_absent by done. by rewrite decide_True.
    + rewrite obj_get_cons, IH by done. done.
Qed.

Lemma obj_get_spread k base data :
  NoDup base.*1 →
  obj_get k (spread base data) =
  match obj_get k data with
  | Some x => Some x
  | None => obj_get k base
  end.
Proof.
  unfold spread. revert base. induction data as [|[k' v] data IH]; intros base Hnd.
  - done.
  - simpl. rewrite IH by by apply obj_set_NoDup.
    rewrite obj_get_cons. destruct (obj_get k data); [done|].
    destruct (decide (k' = k)) as [->|Hne].
    + by apply obj_get_set_same.
    + by apply obj_get_set_other.
Qed.

(** X1. On an open transport [send] hands exactly one frame to the current
    socket and does nothing else; the receiving side of the same code
    ([data.type] in [onmessage]) reads from that frame the [type] argument,
    unless [data] has a [type] key of its own, which then replaces it. *)
Theorem sent_frame_carries_type type data i (s : State) :
  ws (this s) = Some i →
  readyState i s = Some OPEN →
  ∃ frame,
    send type data s =
      (Ok (), set_browser (λ b,
                Build_Browser (sockets b) (timers b) (next_timer b)
                  (wire b ++ [(i, frame)]) (console b) (url_ok b)) s) ∧
    get_type frame = Ok (Some (default (JStr type) (obj_get "type" data))).
Proof.
  intros Hws Hopen. eexists. split.
  - unfold send, ws_send. unfold_m. rewrite Hws.
    rewrite bool_decide_eq_true_2 by done. done.
  - simpl. rewrite obj_get_spread by (apply NoDup_singleton).
    by destruct (obj_get "type" data).
Qed.

(** *** The reconnect timer *)

Lemma emit_keeps event data (s : State) :
  this (emit call event data s).2 = this s ∧
  browser (emit call event data s).2 = browser s.
Proof.
  pose proof (emit_spec call event data s) as H. cbv zeta in H.
  by destruct H as (? & ? & _).
Qed.

Lemma emit_any_keeps type data (s : State) :
  this (emit_any call type data s).2 = this s ∧
  browser (emit_any call type data s).2 = browser s.
Proof. destruct type as [[]|]; try done. apply emit_keeps. Qed.

(** Runs the dispatch in the goal and records that it left the service and
    the browser alone. *)
Ltac run_emit :=
  match goal with
  | |- context [emit call ?e ?d ?st] =>
      let Ht := fresh "Ht" in
      let Hb := fresh "Hb" in
      destruct (emit_keeps e d st) as [Ht Hb];
      destruct (emit call e d st) as [[[]|?] ?]; simpl in Ht, Hb |- *
  | |- context [emit_any call ?e ?d ?st] =>
      let Ht := fresh "Ht" in
      let Hb := fresh "Hb" in
      destruct (emit_any_keeps e d st) as [Ht Hb];
      destruct (emit_any call e d st) as [[[]|?] ?]; simpl in Ht, Hb |- *
  end.

Lemma scheduleReconnect_timer (s : State) :
  let s' := (scheduleReconnect s).2 in
  maybe_scheduled (timer_state s) (timer_state s') ∧ same_handlers s s'.
Proof.
  unfold scheduleReconnect, maybe_scheduled, timer_state, same_handlers.
  unfold_m. unfold set_this, set_browser.
  destruct (reconnectTimer (this s)) as [id|] eqn:Hrt; simpl.
  - rewrite Hrt. by split; [left|].
  - split; [right|done]. split; [done|]. by eexists.
Qed.

Lemma clearReconnectTimer_timer (s : State) :
  let s' := (clearReconnectTimer s).2 in
  cleared (timer_state s) (timer_state s') ∧ same_handlers s s' ∧
  ws (this s') = ws (this s) ∧ sockets (browser s') = sockets (browser s).
Proof.
  unfold clearReconnectTimer, cleared, timer_state, same_handlers.
  unfold_m. unfold set_this, set_browser.
  destruct (reconnectTimer (this s)) as [id|] eqn:Hrt; simpl; [done|].
  by rewrite Hrt.
Qed.

Lemma onopen_timer (s : State) :
  let s' := (onopen call s).2 in
  cleared (timer_state s) (timer_state s') ∧ same_handlers s s'.
Proof.
  unfold onopen, console_log, clearReconnectTimer, cleared, timer_state,
    same_handlers.
  unfold_m. unfold set_this, set_browser. simpl.
  destruct (reconnectTimer (this s)) as [id|] eqn:Hrt; simpl;
    run_emit; rewrite Ht, Hb; simpl; by rewrite ?Hrt.
Qed.

Lemma connect_timer (s : State) :
  let s' := (connect s).2 in
  maybe_scheduled (timer_state s) (timer_state s') ∧ same_handlers s s'.
Proof.
  unfold connect, new_WebSocket, console_log. unfold_m.
  destruct (url_ok (browser s)) eqn:Hu; simpl.
  - by split; [left|].
  - match goal with
    | |- context [scheduleReconnect ?st] =>
        destruct (scheduleReconnect_timer st) as [H1 H2]
    end.
    by split.
Qed.

Lemma onclose_timer (s : State) :
  let s' := (onclose call s).2 in
  maybe_scheduled (timer_state s) (timer_state s') ∧ same_handlers s s'.
Proof.
  unfold onclose, console_log. unfold_m. simpl. run_emit.
  - match goal with
    | |- context [scheduleReconnect ?st] =>
        destruct (scheduleReconnect_timer st) as [H1 H2]
    end.
    unfold timer_state, same_handlers in *. rewrite Ht, Hb in H1.
    rewrite Ht in H2. by split.
  - unfold maybe_scheduled, timer_state, same_handlers. rewrite Ht, Hb.
    by split; [left|].
Qed.

Lemma onmessage_timer frame (s : State) :
  let s' := (onmessage call JSON_parse frame s).2 in
  timer_state s' = timer_state s ∧ same_handlers s s'.
Proof.
  unfold onmessage, console_log, timer_state, same_handlers. unfold_m.
  destruct (JSON_parse frame) as [data|]; simpl; [|done].
  destruct (get_type data) as [type|e]; simpl; [|done].
  run_emit; by rewrite Ht, Hb.
Qed.

Lemma onerror_timer (s : State) :
  let s' := (onerror call s).2 in
  timer_state s' = timer_state s ∧ same_handlers s s'.
Proof.
  unfold onerror, console_log, timer_state, same_handlers. unfold_m. simpl.
  run_emit; by rewrite Ht, Hb.
Qed.

Lemma disconnect_timer (s : State) :
  let s' := (disconnect s).2 in
  cleared (timer_state s) (timer_state s') ∧ same_handlers s s'.
Proof.
  unfold disconnect, clearReconnectTimer, ws_close, cleared, timer_state,
    same_handlers.
  unfold_m. unfold set_this, set_browser.
  destruct s as [[w t m] [so ti nt wi co u] wo inv]. simpl.
  by destruct t as [id|], w as [i|].
Qed.

Lemma send_timer type data (s : State) :
  let s' := (send type data s).2 in
  timer_state s' = timer_state s ∧ same_handlers s s'.
Proof.
  unfold send, ws_send, console_log, timer_state, same_handlers. unfold_m.
  destruct (ws (this s)) as [i|]; simpl; [|done].
  by case_bool_decide.
Qed.

Lemma deliver_timer ev (s s' : State) :
  deliver call JSON_parse ev s = Some s' →
  same_handlers s s' ∧
  match ev with
  | EvOpen _ => cleared (timer_state s) (timer_state s')
  | EvMessage _ _ | EvError _ => timer_state s' = timer_state s
  | EvClose _ => maybe_scheduled (timer_state s) (timer_state s')
  | EvTimeout id =>
      id ∈ timers (browser s) ∧
      maybe_scheduled (reconnectTimer (this s), timers (browser s) ∖ {[id]})
                      (timer_state s')
  end.
Proof.
  destruct ev as [i|i frame|i|i|id]; simpl; unfold task, state_after.
  - destruct (readyState i s) as [[]|]; intros [= <-].
    destruct (onopen_timer (set_readyState i OPEN s)) as [H1 H2]. by split.
  - destruct (readyState i s) as [[]|]; intros [= <-].
    destruct (onmessage_timer frame s) as [H1 H2]. by split.
  - destruct (readyState i s) as [[]|]; intros [= <-];
      destruct (onerror_timer s) as [H1 H2]; by split.
  - destruct (readyState i s) as [[]|]; intros [= <-];
      destruct (onclose_timer (set_readyState i CLOSED s)) as [H1 H2];
      by split.
  - case_decide as Hid; intros [= <-].
    unfold reconnect_callback, console_log. unfold_m. simpl.
    match goal with
    | |- context [connect ?st] => destruct (connect_timer st) as [H1 H2]
    end.
    by split_and!.
Qed.

Lemma on_timer event h (s : State) :
  timer_state (on event h s).2 = timer_state s.
Proof. done. Qed.

Lemma off_timer event h (s : State) :
  timer_state (off event h s).2 = timer_state s.
Proof.
  unfold off, timer_state. unfold_m. unfold set_this. simpl.
  destruct (messageHandlers (this s) !! event) as [hs|]; [|done].
  by destruct (indexOf h hs).
Qed.

Lemma known_cleared c c' : cleared c c' → known c → known c'.
Proof.
  unfold cleared, known. intros -> Hc id. simpl.
  destruct c as [[id0|] T]; simpl in *.
  - intros [Hin Hne]%elem_of_difference. specialize (Hc _ Hin).
    simplify_eq. by destruct Hne; apply elem_of_singleton.
  - intros Hin. by specialize (Hc _ Hin).
Qed.

Lemma known_maybe_scheduled c c' : maybe_scheduled c c' → known c → known c'.
Proof.
  unfold maybe_scheduled, known. intros [->|[Hn [id0 ->]]] Hc; [done|].
  intros id. simpl. intros [Hin|Hin]%elem_of_union.
  - specialize (Hc _ Hin). congruence.
  - by apply elem_of_singleton in Hin as ->.
Qed.

Lemma known_expire rt T id : known (rt, T) → known (rt, T ∖ {[id]}).
Proof.
  unfold known. simpl. intros Hc id' [Hin _]%elem_of_difference. by apply Hc.
Qed.

Lemma step_timer_known a (s : State) :
  timer_known s → timer_known (step call JSON_parse a s).
Proof.
  unfold timer_known. intros Hk.
  destruct a as [| |type data|event h|event h|ev]; cbn [step];
    unfold state_after.
  - destruct (connect_timer s) as [H _]. by eapply known_maybe_scheduled.
  - destruct (disconnect_timer s) as [H _]. by eapply known_cleared.
  - destruct (send_timer type data s) as [H _]. by rewrite H.
  - by rewrite on_timer.
  - by rewrite off_timer.
  - destruct (deliver call JSON_parse ev s) as [s'|] eqn:Hd; [|done]. simpl.
    destruct (deliver_timer _ _ _ Hd) as [_ H].
    destruct ev as [i|i frame|i|i|id].
    + by eapply known_cleared.
    + by rewrite H.
    + by rewrite H.
    + by eapply known_maybe_scheduled.
    + destruct H as [_ H]. eapply known_maybe_scheduled; [done|].
      by apply known_expire.
Qed.

(** X2. Whatever callers and the browser do to a new service, every timer
    that is pending is the one whose handle the service holds: there is
    never more than one reconnect timer, and [clearReconnectTimer] (hence
    [disconnect] and a successful open) cancels all there is. *)
Theorem at_most_one_reconnect_timer actions (w : W) :
  let s := run call JSON_parse actions (fresh w) in
  timer_known s ∧ (size (timers (browser s)) ≤ 1)%nat.
Proof.
  cbv zeta.
  assert (Hk : timer_known (run call JSON_parse actions (fresh w))).
  { assert (H0 : timer_known (fresh (Handler:=Handler) w)).
    { intros id Hin. simpl in Hin. by apply elem_of_empty in Hin. }
    revert H0. generalize (fresh (Handler:=Handler) w). unfold run.
    induction actions as [|a actions IH]; intros s0 H0; [done|].
    simpl. by apply IH, step_timer_known. }
  split; [done|].
  unfold timer_known, known, timer_state in Hk. simpl in Hk.
  destruct (reconnectTimer (this (run call JSON_parse actions (fresh w))))
    as [id|] eqn:Hrt.
  - assert (Hsub : timers (browser (run call JSON_parse actions (fresh w)))
                   ⊆ {[id]}).
    { intros x Hx. specialize (Hk _ Hx). simplify_eq. by apply elem_of_singleton. }
    apply subseteq_size in Hsub. rewrite size_singleton in Hsub. lia.
  - assert (He : timers (browser (run call JSON_parse actions (fresh w))) = ∅).
    { apply leibniz_equiv, elem_of_equiv_empty. intros x Hx.
      by specialize (Hk _ Hx). }
    rewrite He, size_empty. lia.
Qed.

Lemma stale_maybe_scheduled id c c' :
  maybe_scheduled c c' → stale id c → stale id c'.
Proof. unfold stale. intros [->|[Hn _]] ->; [done|]. done. Qed.

Lemma step_stale id a (s : State) :
  resets_timer a = false →
  stale id (timer_state s) → stale id (timer_state (step call JSON_parse a s)).
Proof.
  intros Ha Hs.
  destruct a as [| |type data|event h|event h|ev]; cbn [step];
    unfold state_after; try done.
  - destruct (connect_timer s) as [H _]. by eapply stale_maybe_scheduled.
  - destruct (send_timer type data s) as [H _]. by rewrite H.
  - by rewrite off_timer.
  - destruct (deliver call JSON_parse ev s) as [s'|] eqn:Hd; [|done]. simpl.
    destruct (deliver_timer _ _ _ Hd) as [_ H].
    destruct ev as [i|i frame|i|i|id']; try done.
    + by rewrite H.
    + by rewrite H.
    + by eapply stale_maybe_scheduled.
    + destruct H as [Hin _]. unfold stale, timer_state in Hs.
      injection Hs as _ HT. rewrite HT in Hin. by apply elem_of_empty in Hin.
Qed.

Lemma run_stale id rest (s : State) :
  Forall (λ a, resets_timer a = false) rest →
  stale id (timer_state s) →
  stale id (timer_state (run call JSON_parse rest s)).
Proof.
  intros Hrest. revert s. unfold run.
  induction Hrest as [|a rest Ha _ IH]; intros s Hs; [done|].
  simpl. by apply IH, step_stale.
Qed.

(** X3. The callback of the reconnect timer does not set [reconnectTimer]
    back to [null]. Once the timer has fired, the service holds a stale
    handle and [scheduleReconnect] does nothing: whether the new socket
    fails, closes, or [new WebSocket] throws, no timer is pending again
    until a socket opens or [disconnect] is called. A lost connection is
    retried once. *)
Theorem reconnect_is_attempted_once id rest (s : State) :
  reconnectTimer (this s) = Some id →
  timers (browser s) = {[id]} →
  Forall (λ a, resets_timer a = false) rest →
  let s' := run call JSON_parse (Event (EvTimeout id) :: rest) s in
  timers (browser s') = ∅ ∧ reconnectTimer (this s') = Some id.
Proof.
  intros Hrt HT Hrest. cbv zeta.
  change (run call JSON_parse (Event (EvTimeout id) :: rest) s)
    with (run call JSON_parse rest
            (default s (deliver call JSON_parse (EvTimeout id) s))).
  assert (H1 : stale id (timer_state
            (default s (deliver call JSON_parse (EvTimeout id) s)))).
  { destruct (deliver call JSON_parse (EvTimeout id) s) as [s1|] eqn:Hd.
    - destruct (deliver_timer _ _ _ Hd) as [_ [_ H]]. simpl.
      eapply stale_maybe_scheduled; [exact H|].
      unfold stale. by rewrite Hrt, HT, difference_diag_L.
    - simpl in Hd. rewrite decide_True in Hd; [done|].
      rewrite HT. by apply elem_of_singleton. }
  pose proof (run_stale id rest _ Hrest H1) as Hgoal.
  unfold stale, timer_state in Hgoal. by simplify_eq.
Qed.

Lemma connect_if_needed_same (s : State) :
  same_handlers s (state_after (connect_if_needed s)).
Proof.
  unfold connect_if_needed, state_after. unfold_m.
  destruct (isConnected s); [done|]. apply connect_timer.
Qed.

(** X18. A reachable service that has just run [disconnect] has no timer
    pending at all: the one it may have held is cancelled and there was no
    other. (A close event that arrives later arms a new one.) *)
Theorem disconnect_leaves_no_timer actions (w : W) :
  let s := run call JSON_parse (actions ++ [Disconnect]) (fresh w) in
  timers (browser s) = ∅ ∧ reconnectTimer (this s) = None ∧ ws (this s) = None.
Proof.
  cbv zeta. unfold run. rewrite foldl_app. cbn [foldl step].
  fold (run call JSON_parse actions (fresh w)).
  assert (Hk : timer_known (run call JSON_parse actions (fresh w))).
  { assert (H0 : timer_known (fresh (Handler:=Handler) w)).
    { intros id Hin. simpl in Hin. by apply elem_of_empty in Hin. }
    revert H0. generalize (fresh (Handler:=Handler) w). unfold run.
    induction actions as [|a actions IH]; intros s0 H0; [done|].
    simpl. by apply IH, step_timer_known. }
  set (s := run call JSON_parse actions (fresh w)) in *. clearbody s.
  destruct (disconnect_timer s) as [Hc _].
  pose proof (known_cleared _ _ Hc Hk) as Hk'.
  unfold cleared, timer_state in Hc. injection Hc as Hrt HT.
  unfold state_after. split_and!.
  - apply leibniz_equiv, elem_of_equiv_empty. intros id Hin.
    specialize (Hk' id Hin). unfold timer_state in Hk'. cbn [fst] in Hk'.
    congruence.
  - done.
  - unfold disconnect, clearReconnectTimer, ws_close. unfold_m.
    unfold set_this, set_browser.
    destruct s as [[w0 t m] b w1 inv]. cbn.
    by destruct t, w0.
Qed.

(** X19. The callbacks of a socket close over the service, not over the
    socket. When [connect] was called again before the first socket
    opened, the open of that first socket is announced to the subscribers
    of 'connected' all the same, although the socket the service now holds
    is still connecting and [isConnected()] is false. *)
Theorem superseded_socket_reports_connected i j (s : State) :
  ws (this s) = Some j → i ≠ j →
  readyState i s = Some CONNECTING →
  readyState j s = Some CONNECTING →
  ∃ s', deliver call JSON_parse (EvOpen i) s = Some s' ∧
        isConnected s' = false ∧
        invoked s' = invoked s ++
          map (λ h, (h, VJson JNull))
              (reached call (handlers_of "connected" s) (VJson JNull) (world s)).
Proof.
  intros Hws Hne Hi Hj. cbn [deliver]. rewrite Hi. eexists. split; [done|].
  unfold task, state_after, onopen, console_log, clearReconnectTimer.
  unfold_m. unfold set_this, set_browser. simpl.
  unfold readyState in Hj.
  destruct (reconnectTimer (this s)) as [id|] eqn:Hrt; simpl;
    match goal with
    | |- context [emit call ?e ?d ?st] =>
        pose proof (emit_spec call e d st) as He; cbv zeta in He;
        destruct He as (Ht & Hb & Hinv & _);
        destruct (emit call e d st) as [r s']
    end;
    cbn [fst snd] in *; (split; [|by rewrite Hinv]);
    unfold isConnected, readyState; rewrite Ht, Hb; cbn; rewrite Hws;
    apply bool_decide_eq_false_2;
    rewrite list_lookup_insert_ne by done; by rewrite Hj.
Qed.

End MoreTransport.

Lemma superseded_socket_reports_connected_witness :
  let s := run Scenario.call Scenario.JSON_parse
             [On "connected" 2%nat; Connect; Connect] (fresh 0%nat) in
  ws (this s) = Some 1%nat ∧ 0%nat ≠ 1%nat ∧
  readyState 0 s = Some CONNECTING ∧
  readyState 1 s = Some CONNECTING ∧
  ∃ s', deliver Scenario.call Scenario.JSON_parse (EvOpen 0) s = Some s' ∧
        isConnected s' = false ∧
        invoked s' = [(2%nat, VJson JNull)].
Proof.
  cbv zeta.
  set (s := run Scenario.call Scenario.JSON_parse
              [On "connected" 2%nat; Connect; Connect] (fresh 0%nat)).
  assert (H1 : ws (this s) = Some 1%nat) by (by vm_compute).
  assert (H2 : 0%nat ≠ 1%nat) by discriminate.
  assert (H3 : readyState 0 s = Some CONNECTING) by (by vm_compute).
  assert (H4 : readyState 1 s = Some CONNECTING) by (by vm_compute).
  split; [exact H1|]. split; [exact H2|]. split; [exact H3|].
  split; [exact H4|].
  destruct (superseded_socket_reports_connected Scenario.call
              Scenario.JSON_parse 0%nat 1%nat s H1 H2 H3 H4)
    as (s' & Hd & Hc & Hinv).
  exists s'. split; [exact Hd|]. split; [exact Hc|].
  rewrite Hinv. by vm_compute.
Defined.

Lemma sent_frame_carries_type_witness :
  ws (this Scenario.opened) = Some 0%nat ∧
  readyState 0 Scenario.opened = Some OPEN ∧
  ∃ frame,
    send "control" [("action", JStr "mute")] Scenario.opened =
      (Ok (), set_browser (λ b,
                Build_Browser (sockets b) (timers b) (next_timer b)
                  (wire b ++ [(0%nat, frame)]) (console b) (url_ok b))
                Scenario.opened) ∧
    get_type frame = Ok (Some (JStr "control")).
Proof.
  assert (H1 : ws (this Scenario.opened) = Some 0%nat) by (by vm_compute).
  assert (H2 : readyState 0 Scenario.opened = Some OPEN) by (by vm_compute).
  split; [exact H1|]. split; [exact H2|].
  exact (sent_frame_carries_type "control" [("action", JStr "mute")] 0%nat
           Scenario.opened H1 H2).
Defined.

(** The connection is lost (close event), the timer fires, and the socket
    it opened is refused as well: nothing is pending afterwards, whatever
    follows short of an open or a [disconnect]. *)
Lemma reconnect_is_attempted_once_witness :
  let s := run Scenario.call Scenario.JSON_parse
             [Connect; Event (EvOpen 0); Event (EvClose 0)] (fresh 0%nat) in
  let rest := [Event (EvError 1); Event (EvClose 1); Connect;
               Event (EvClose 2); Send "control" []] in
  reconnectTimer (this s) = Some 1%positive ∧
  timers (browser s) = {[1%positive]} ∧
  Forall (λ a, resets_timer (Handler:=nat) a = false) rest ∧
  timers (browser (run Scenario.call Scenario.JSON_parse
                     (Event (EvTimeout 1) :: rest) s)) = ∅ ∧
  sockets (browser (run Scenario.call Scenario.JSON_parse
                     (Event (EvTimeout 1) :: rest) s))
    = [CLOSED; CLOSED; CLOSED].
Proof.
  cbv zeta.
  set (s := run Scenario.call Scenario.JSON_parse
              [Connect; Event (EvOpen 0); Event (EvClose 0)] (fresh 0%nat)).
  set (rest := [Event (EvError 1); Event (EvClose 1); Connect;
                Event (EvClose 2); Send "control" []]).
  assert (H1 : reconnectTimer (this s) = Some 1%positive) by (by vm_compute).
  assert (H2 : timers (browser s) = {[1%positive]}) by (by vm_compute).
  assert (H3 : Forall (λ a, resets_timer (Handler:=nat) a = false) rest).
  { repeat constructor. }
  split; [exact H1|]. split; [exact H2|]. split; [exact H3|].
  split.
  - exact (proj1 (reconnect_is_attempted_once Scenario.call Scenario.JSON_parse
                    1%positive rest s H1 H2 H3)).
  - by vm_compute.
Defined.

Lemma untyped_frame_is_discarded_witness :
  readyState 0 Scenario.opened = Some OPEN ∧
  Scenario.JSON_parse "{}" = Some (JObj []) ∧
  ∃ s', deliver Scenario.call Scenario.JSON_parse (EvMessage 0 "{}")
          Scenario.opened = Some s' ∧
        invoked s' = invoked Scenario.opened ∧
        console (browser s') = console (browser Scenario.opened).
Proof.
  assert (H1 : readyState 0 Scenario.opened = Some OPEN) by (by vm_compute).
  assert (H2 : Scenario.JSON_parse "{}" = Some (JObj [])) by (by vm_compute).
  assert (H3 : ∀ t, get_type (JObj []) ≠ Ok (Some (JStr t))) by done.
  split; [exact H1|]. split; [exact H2|].
  destruct (untyped_frame_is_discarded Scenario.call Scenario.JSON_parse
              0%nat "{}" (JObj []) Scenario.opened H1 H2 H3)
    as (s' & Hd & Hi & _ & _ & _ & Hc).
  exists s'. split; [exact Hd|]. split; [exact Hi|].
  rewrite Hc. apply app_nil_r.
Defined.

Lemma close_event_after_disconnect_rearms_witness :
  ws (this Scenario.opened) = Some 0%nat ∧
  readyState 0 Scenario.opened = Some OPEN ∧
  ∃ s2, deliver Scenario.call Scenario.JSON_parse (EvClose 0)
          (state_after (disconnect Scenario.opened)) = Some s2 ∧
        ws (this s2) = None ∧
        reconnectTimer (this s2) = Some 1%positive ∧
        1%positive ∈ timers (browser s2).
Proof.
  assert (H1 : ws (this Scenario.opened) = Some 0%nat) by (by vm_compute).
  assert (H2 : readyState 0 Scenario.opened = Some OPEN) by (by vm_compute).
  assert (H3 : Forall (λ h, ∀ w, (Scenario.call h (VJson JNull) w).1 = Ok ())
                      (handlers_of "disconnected" Scenario.opened)).
  { change (handlers_of "disconnected" Scenario.opened) with (@nil nat).
    constructor. }
  split; [exact H1|]. split; [exact H2|].
  exact (close_event_after_disconnect_rearms Scenario.call Scenario.JSON_parse
           0%nat Scenario.opened H1 (or_introl H2) H3).
Defined.

(** ** More on the recorder hook *)

Module RecorderMore.
Import Recorder RecorderRuns RecorderProps.

Lemma calculateAudioLevel_keeps r p l s :
  let s' := calculateAudioLevel r p l s in
  recorders (media s') = recorders (media s) ∧
  streams (media s') = streams (media s) ∧
  contexts (media s') = contexts (media s) ∧
  mediaRecorderRef (refs s') = mediaRecorderRef (refs s) ∧
  streamRef (refs s') = streamRef (refs s) ∧
  isRecording (hook s') = isRecording (hook s) ∧
  isPaused (hook s') = isPaused (hook s) ∧
  error (hook s') = error (hook s).
Proof.
  unfold calculateAudioLevel. destruct (analyserRef (refs s)); [|done].
  by destruct (r && negb p).
Qed.

Lemma calculateAudioLevel_idle p r l s :
  r && negb p = false →
  frames (media (calculateAudioLevel r p l s)) = frames (media s) ∧
  animationFrameRef (refs (calculateAudioLevel r p l s))
    = animationFrameRef (refs s).
Proof.
  intros H. unfold calculateAudioLevel. rewrite H.
  by destruct (analyserRef (refs s)).
Qed.

Lemma stop_media_recorder_other r s :
  mediaRecorderRef (refs s) ≠ Some r →
  recorders (media (stop_media_recorder s)) !! r = recorders (media s) !! r.
Proof.
  intros Hr. unfold stop_media_recorder, recorder_state.
  destruct (mediaRecorderRef (refs s)) as [r'|]; [|done].
  destruct (recorders (media s) !! r') as [[[] cb p]|]; simpl; try done;
    apply list_lookup_alter_ne; congruence.
Qed.

Lemma stop_all_tracks_other i s :
  streamRef (refs s) ≠ Some i →
  streams (media (stop_all_tracks s)) !! i = streams (media s) !! i.
Proof.
  intros Hi. unfold stop_all_tracks.
  destruct (streamRef (refs s)) as [i'|]; [|done]. simpl.
  apply list_lookup_alter_ne. congruence.
Qed.

Lemma stopRecording_other r i s :
  mediaRecorderRef (refs s) ≠ Some r →
  streamRef (refs s) ≠ Some i →
  recorders (media (stopRecording s)) !! r = recorders (media s) !! r ∧
  streams (media (stopRecording s)) !! i = streams (media s) !! i.
Proof.
  intros Hr Hi. unfold stopRecording. cbn [media setAudioLevel setIsPaused
    setIsRecording set_hook set_refs].
  destruct (cancel_pending_frame_spec
              (close_audio_context (stop_all_tracks (stop_media_recorder s))))
    as (_ & _ & -> & -> & _).
  destruct (close_audio_context_spec (stop_all_tracks (stop_media_recorder s)))
    as (_ & _ & -> & -> & _).
  destruct (stop_all_tracks_spec (stop_media_recorder s))
    as (_ & Hrefs & -> & _).
  destruct (stop_media_recorder_spec s) as (_ & Hrefs' & _ & Hst & _).
  split.
  - by apply stop_media_recorder_other.
  - rewrite stop_all_tracks_other by (by rewrite Hrefs'). by rewrite Hst.
Qed.

Lemma step_orphaned r i mr tracks a s :
  orphaned r i mr tracks s → orphaned r i mr tracks (step a s).
Proof.
  intros (Hrec & Hstr & Hr & Hi).
  assert (Hlr : (r < length (recorders (media s)))%nat)
    by (by eapply lookup_lt_Some).
  assert (Hli : (i < length (streams (media s)))%nat)
    by (by eapply lookup_lt_Some).
  unfold orphaned.
  destruct a as [|msg|c n outcome l| | |ir ip l|id l|]; cbn [step].
  - done.
  - done.
  - destruct outcome; cbn [startRecording_granted].
    + cbn. split_and!; try done.
      * by rewrite lookup_app_l.
      * intros [= <-]. lia.
    + cbn. split_and!; try done.
      * by rewrite lookup_app_l.
      * intros [= <-]. lia.
    + match goal with
      | |- context [calculateAudioLevel ?a ?b ?d ?st] =>
          destruct (calculateAudioLevel_keeps a b d st)
            as (-> & -> & _ & -> & -> & _)
      end.
      cbn. split_and!.
      * by rewrite lookup_app_l.
      * by rewrite lookup_app_l.
      * intros [= <-]. lia.
      * intros [= <-]. lia.
  - destruct (stopRecording_other r i s Hr Hi) as [-> ->].
    by rewrite stopRecording_refs.
  - unfold pauseRecording.
    destruct (mediaRecorderRef (refs s)) as [r'|] eqn:Hr';
      [|split_and!; first [done | congruence]].
    assert (Hne : r' ≠ r) by congruence.
    destruct (recorder_state r' s) as [[]|];
      try (split_and!; first [done | congruence]).
    destruct (animationFrameRef _); cbn;
      rewrite list_lookup_alter_ne by done;
      split_and!; first [done | congruence].
  - unfold resumeRecording.
    destruct (mediaRecorderRef (refs s)) as [r'|] eqn:Hr';
      [|split_and!; first [done | congruence]].
    assert (Hne : r' ≠ r) by congruence.
    destruct (recorder_state r' s) as [[]|];
      try (split_and!; first [done | congruence]).
    match goal with
    | |- context [calculateAudioLevel ?a ?b ?d ?st] =>
        destruct (calculateAudioLevel_keeps a b d st)
          as (-> & -> & _ & -> & -> & _)
    end.
    cbn. rewrite list_lookup_alter_ne by done.
    split_and!; first [done | congruence].
  - case_decide; [|done].
    match goal with
    | |- context [calculateAudioLevel ?a ?b ?d ?st] =>
        destruct (calculateAudioLevel_keeps a b d st)
          as (-> & -> & _ & -> & -> & _)
    end.
    done.
  - unfold recorder_onerror.
    destruct (stopRecording_other r i (setError (Some "Recording error occurred") s)
                Hr Hi) as [-> ->].
    by rewrite stopRecording_refs.
Qed.

(** X5. [startRecording] does not look at the refs it overwrites. When it
    succeeds while a recorder is already held, that recorder and its stream
    are left as they are and nothing refers to them afterwards: whatever the
    hook does next ([stopRecording] included), the first recorder keeps its
    state and the first stream keeps its tracks. *)
Theorem second_start_orphans_the_first r i mr tracks c n l actions (s : State) :
  mediaRecorderRef (refs s) = Some r →
  recorders (media s) !! r = Some mr →
  streamRef (refs s) = Some i →
  streams (media s) !! i = Some tracks →
  let s' := run actions (startRecording_granted c n Started l s) in
  recorders (media s') !! r = Some mr ∧ streams (media s') !! i = Some tracks.
Proof.
  intros Hr Hrec Hi Hstr. cbv zeta.
  assert (H0 : orphaned r i mr tracks (startRecording_granted c n Started l s)).
  { assert (Hlr : (r < length (recorders (media s)))%nat)
      by (by eapply lookup_lt_Some).
    assert (Hli : (i < length (streams (media s)))%nat)
      by (by eapply lookup_lt_Some).
    unfold orphaned. cbn [startRecording_granted].
    match goal with
    | |- context [calculateAudioLevel ?a ?b ?d ?st] =>
        destruct (calculateAudioLevel_keeps a b d st)
          as (-> & -> & _ & -> & -> & _)
    end.
    cbn. split_and!.
    - by rewrite lookup_app_l.
    - by rewrite lookup_app_l.
    - intros [= <-]. lia.
    - intros [= <-]. lia. }
  assert (H : orphaned r i mr tracks
                (run actions (startRecording_granted c n Started l s))).
  { revert H0. generalize (startRecording_granted c n Started l s). unfold run.
    induction actions as [|a actions IH]; intros s0 H0; [done|].
    cbn [foldl]. by apply IH, step_orphaned. }
  by destruct H as (? & ? & _).
Qed.

Lemma second_start_orphans_the_first_witness :
  let c := Build_StartRecording (Build_AudioDataCallback true false) true false in
  let zeros := replicate frequencyBinCount Byte.x00 in
  let mr := Build_MediaRecorder recording (Build_AudioDataCallback false false)
              false in
  let s' := run [Stop] (startRecording_granted c 1 Started zeros capturing) in
  mediaRecorderRef (refs capturing) = Some 0%nat ∧
  recorders (media capturing) !! 0%nat = Some mr ∧
  streamRef (refs capturing) = Some 0%nat ∧
  streams (media capturing) !! 0%nat = Some [live] ∧
  (recorders (media s') !! 0%nat = Some mr ∧
   streams (media s') !! 0%nat = Some [live]) ∧
  recorder_state 1 s' = Some inactive ∧
  refs s' = no_refs.
Proof.
  cbv zeta.
  assert (H1 : mediaRecorderRef (refs capturing) = Some 0%nat) by reflexivity.
  assert (H2 : recorders (media capturing) !! 0%nat =
               Some (Build_MediaRecorder recording
                       (Build_AudioDataCallback false false) false))
    by reflexivity.
  assert (H3 : streamRef (refs capturing) = Some 0%nat) by reflexivity.
  assert (H4 : streams (media capturing) !! 0%nat = Some [live]) by reflexivity.
  split; [exact H1|]. split; [exact H2|]. split; [exact H3|].
  split; [exact H4|]. split.
  - exact (second_start_orphans_the_first 0 0 _ _
             (Build_StartRecording (Build_AudioDataCallback true false) true false)
             1 (replicate frequencyBinCount Byte.x00) [Stop] capturing
             H1 H2 H3 H4).
  - split; reflexivity.
Defined.

(** *** The level meter between start and stop *)

Lemma stopRecording_frames s :
  frames (media (stopRecording s)) =
  match animationFrameRef (refs s) with
  | Some id => frames (media s) ∖ {[id]}
  | None => frames (media s)
  end.
Proof.
  unfold stopRecording. cbn [media setAudioLevel setIsPaused setIsRecording
    set_hook set_refs].
  destruct (close_audio_context_spec (stop_all_tracks (stop_media_recorder s)))
    as (_ & Hr3 & _ & _ & Hf3 & _).
  destruct (stop_all_tracks_spec (stop_media_recorder s))
    as (_ & Hr2 & _ & _ & Hf2 & _).
  destruct (stop_media_recorder_spec s) as (_ & Hr1 & _ & _ & Hf1 & _).
  unfold cancel_pending_frame. rewrite Hr3, Hr2, Hr1.
  destruct (animationFrameRef (refs s)); cbn; by rewrite Hf3, Hf2, Hf1.
Qed.

Lemma step_meter_idle a s :
  closure_loops a = false → meter_idle s → meter_idle (step a s).
Proof.
  unfold meter_idle. intros Ha [Hf Hr].
  destruct a as [|msg|c n outcome l| | |ir ip l|id l|]; cbn [step].
  - done.
  - done.
  - destruct outcome; cbn [startRecording_granted]; [done | done |].
    match goal with
    | |- context [calculateAudioLevel ?a ?b ?d ?st] =>
        destruct (calculateAudioLevel_idle b a d st Ha) as [-> ->]
    end.
    done.
  - by rewrite stopRecording_frames, stopRecording_refs, Hr.
  - unfold pauseRecording.
    destruct (mediaRecorderRef (refs s)) as [r'|]; [|done].
    destruct (recorder_state r' s) as [[]|]; try done.
    cbn. by rewrite Hr.
  - unfold resumeRecording.
    destruct (mediaRecorderRef (refs s)) as [r'|]; [|done].
    destruct (recorder_state r' s) as [[]|]; try done.
    match goal with
    | |- context [calculateAudioLevel ?a ?b ?d ?st] =>
        destruct (calculateAudioLevel_idle b a d st Ha) as [-> ->]
    end.
    done.
  - rewrite Hf. by rewrite decide_False by apply not_elem_of_empty.
  - unfold recorder_onerror.
    rewrite stopRecording_frames, stopRecording_refs. cbn. by rewrite Hr.
Qed.

(** X6. [calculateAudioLevel] asks for the next animation frame only if
    the render that created it showed [isRecording && !isPaused], and
    [startRecording] and [resumeRecording] call the one of their own render.
    When every start comes from a render that is not recording and every
    resume from one that is paused, no animation frame is ever requested:
    the level is sampled once per start or resume and then stays. *)
Theorem level_is_sampled_once actions :
  Forall (λ a, closure_loops a = false) actions →
  let s := run actions initial in
  frames (media s) = ∅ ∧ animationFrameRef (refs s) = None ∧
  ∀ id l, step (Frame id l) s = s.
Proof.
  intros Hact. cbv zeta.
  assert (H : meter_idle (run actions initial)).
  { assert (H0 : meter_idle initial) by done.
    revert H0. generalize initial. unfold run.
    induction Hact as [|a actions Ha _ IH]; intros s0 H0; [done|].
    cbn [foldl]. by apply IH, step_meter_idle. }
  destruct H as [Hf Hr]. split_and!; [done | done |].
  intros id l. cbn [step]. rewrite Hf.
  by rewrite decide_False by apply not_elem_of_empty.
Qed.

Lemma level_is_sampled_once_witness :
  let first := Build_StartRecording (Build_AudioDataCallback false false)
                 false false in
  let zeros := replicate frequencyBinCount Byte.x00 in
  let actions := [StartBegin; StartGranted first 1 Started zeros;
                  Pause; Resume true true zeros] in
  Forall (λ a, closure_loops a = false) actions ∧
  isRecording (hook (run actions initial)) = true ∧
  frames (media (run actions initial)) = ∅.
Proof.
  cbv zeta.
  set (actions := [StartBegin;
                   StartGranted (Build_StartRecording
                                   (Build_AudioDataCallback false false)
                                   false false) 1 Started
                                (replicate frequencyBinCount Byte.x00);
                   Pause;
                   Resume true true (replicate frequencyBinCount Byte.x00)]).
  assert (H : Forall (λ a, closure_loops a = false) actions).
  { repeat constructor. }
  split; [exact H|]. split; [reflexivity|].
  exact (proj1 (level_is_sampled_once actions H)).
Defined.



(** X8. Pausing a running capture and resuming it brings the recorder
    back to [recording] and [isPaused] back to [false], whatever closure
    [resumeRecording] was taken from; the stream, the audio context and the
    callback of the recorder are untouched, and a second [pauseRecording]
    in between does nothing. *)
Theorem pause_then_resume r ir ip l (s : State) :
  mediaRecorderRef (refs s) = Some r →
  recorder_state r s = Some recording →
  let s1 := pauseRecording s in
  let s2 := resumeRecording ir ip l s1 in
  (recorder_state r s1 = Some paused ∧ isPaused (hook s1) = true ∧
   pauseRecording s1 = s1) ∧
  (recorder_state r s2 = Some recording ∧ isPaused (hook s2) = false ∧
   isRecording (hook s2) = isRecording (hook s) ∧
   callbacks s2 = callbacks s ∧
   streams (media s2) = streams (media s) ∧
   contexts (media s2) = contexts (media s)).
Proof.
  intros Href Hst. cbv zeta.
  assert (Hp : ∃ s1, pauseRecording s = s1 ∧
                     refs s1 = refs s ∧
                     recorders (media s1)
                       = alter (λ mr, Build_MediaRecorder paused (onAudioData mr)
                                        (closure_isPaused mr)) r
                               (recorders (media s)) ∧
                     streams (media s1) = streams (media s) ∧
                     contexts (media s1) = contexts (media s) ∧
                     isPaused (hook s1) = true ∧
                     isRecording (hook s1) = isRecording (hook s)).
  { unfold pauseRecording. rewrite Href, Hst. eexists. split; [done|].
    by destruct (animationFrameRef _). }
  destruct Hp as (s1 & -> & Hrefs & Hrecs & Hstr & Hctx & Hip & Hir).
  unfold recorder_state in Hst.
  destruct (recorders (media s) !! r) as [mr|] eqn:Hmr; [|done].
  simpl in Hst.
  assert (Hst1 : recorder_state r s1 = Some paused).
  { unfold recorder_state. by rewrite Hrecs, list_lookup_alter_eq, Hmr. }
  split.
  - split_and!; [done | done |].
    unfold pauseRecording. by rewrite Hrefs, Href, Hst1.
  - unfold resumeRecording. rewrite Hrefs, Href, Hst1.
    match goal with
    | |- context [calculateAudioLevel ?a ?b ?d ?st] =>
        destruct (calculateAudioLevel_keeps a b d st)
          as (Hk1 & -> & -> & _ & _ & -> & -> & _)
    end.
    unfold recorder_state, callbacks. rewrite Hk1. cbn.
    rewrite Hrecs, list_lookup_alter_eq, list_lookup_alter_eq, Hmr.
    split_and!; try done.
    by rewrite !fmap_alter_same.
Qed.

Lemma pause_then_resume_witness :
  let zeros := replicate frequencyBinCount Byte.x00 in
  mediaRecorderRef (refs capturing) = Some 0%nat ∧
  recorder_state 0 capturing = Some recording ∧
  recorder_state 0 (pauseRecording capturing) = Some paused ∧
  recorder_state 0 (resumeRecording true true zeros (pauseRecording capturing))
    = Some recording.
Proof.
  cbv zeta.
  assert (H1 : mediaRecorderRef (refs capturing) = Some 0%nat) by reflexivity.
  assert (H2 : recorder_state 0 capturing = Some recording) by reflexivity.
  split; [exact H1|]. split; [exact H2|].
  destruct (pause_then_resume 0 true true
              (replicate frequencyBinCount Byte.x00) capturing H1 H2)
    as ((Ha & _) & (Hb & _)).
  split; [exact Ha | exact Hb].
Defined.

(** X9. [Math.min(100, ...)] never takes effect: a byte is at most 255, so
    the level of a frame with at least one bin is [(average / 255) * 100]
    itself. *)
Theorem level_clamp_is_never_reached (dataArray : list Byte.byte) :
  dataArray ≠ [] →
  level_is (normalizedLevel dataArray)
    (inject_Z (sum_bytes dataArray)
     / inject_Z (Z.of_nat (length dataArray)) / 255 * 100).
Proof.
  intros Hl. destruct (average_bounds dataArray Hl) as (a & Ha & Hlo & Hhi & _).
  unfold normalizedLevel. rewrite Ha.
  assert (Hav : average dataArray =
                Num (inject_Z (sum_bytes dataArray)
                     / inject_Z (Z.of_nat (length dataArray))))
    by (by destruct dataArray).
  rewrite Hav in Ha. injection Ha as Ha. rewrite Ha.
  unfold level_is. apply Q.min_r.
  assert (H : (a / 255 <= 1)%Q) by (apply Qle_shift_div_r; lra).
  lra.
Qed.

Lemma level_clamp_is_never_reached_witness :
  replicate frequencyBinCount Byte.xff ≠ [] ∧
  level_is (normalizedLevel (replicate frequencyBinCount Byte.xff)) 100.
Proof.
  assert (H : replicate frequencyBinCount Byte.xff ≠ []) by done.
  split; [exact H|].
  pose proof (level_clamp_is_never_reached _ H) as Hlev.
  unfold level_is in *.
  destruct (normalizedLevel (replicate frequencyBinCount Byte.xff)) as [q|];
    [|exact Hlev].
  rewrite Hlev. reflexivity.
Defined.

End RecorderMore.

(** ** The data URL of a chunk *)

Module DataUrlProps.
Import DataUrl.

Lemma split_comma_plain s : no_comma s = true → split_comma s = [s].
Proof.
  induction s as [|c s IH]; [done|]. cbn [no_comma split_comma].
  intros [Hc Hs]%andb_true_iff. apply negb_true_iff in Hc. rewrite Hc.
  by rewrite IH.
Qed.

Lemma split_comma_app header rest :
  no_comma header = true →
  split_comma (header +:+ "," +:+ rest) = header :: split_comma rest.
Proof.
  induction header as [|c header IH].
  - intros _. change ("" +:+ "," +:+ rest) with ("," +:+ rest).
    by destruct rest.
  - cbn [no_comma]. intros [Hc Hs]%andb_true_iff. apply negb_true_iff in Hc.
    change (String c header +:+ "," +:+ rest)
      with (String c (header +:+ "," +:+ rest)).
    cbn [split_comma]. by rewrite Hc, IH.
Qed.

(** X17. [blobToBase64] resolves with the payload of the data URL, the
    text between the first comma and the next one: all of it whenever the
    payload has no comma, as base64 never has. A result without a comma
    gives [undefined]. *)
Theorem blobToBase64_returns_payload header payload :
  no_comma header = true →
  no_comma payload = true →
  blobToBase64 (header +:+ "," +:+ payload) = Some payload ∧
  blobToBase64 header = None.
Proof.
  intros Hh Hp. unfold blobToBase64. split.
  - by rewrite split_comma_app, split_comma_plain.
  - by rewrite split_comma_plain.
Qed.

Lemma blobToBase64_returns_payload_witness :
  no_comma "data:audio/webm;codecs=opus;base64" = true ∧
  no_comma "GkXfo59ChoEBQveBAULygQRC84EI" = true ∧
  blobToBase64 "data:audio/webm;codecs=opus;base64,GkXfo59ChoEBQveBAULygQRC84EI"
    = Some "GkXfo59ChoEBQveBAULygQRC84EI".
Proof.
  assert (H1 : no_comma "data:audio/webm;codecs=opus;base64" = true)
    by reflexivity.
  assert (H2 : no_comma "GkXfo59ChoEBQveBAULygQRC84EI" = true) by reflexivity.
  split; [exact H1|]. split; [exact H2|].
  exact (proj1 (blobToBase64_returns_payload _ _ H1 H2)).
Defined.

End DataUrlProps.

(** ** The subscriptions of the application *)

Module AppMore.
Import App AppEffects.

Lemma handlers_of_on_any e e' (h : Handler) (s : Total) :
  handlers_of e (state_after (on e' h s)) =
  handlers_of e s ++ (if decide (e' = e) then [h] else []).
Proof.
  destruct (decide (e' = e)) as [->|Hne]; [apply handlers_of_on|].
  rewrite app_nil_r. unfold on, handlers_of. unfold_m. simpl.
  rewrite lookup_alter_ne by done.
  destruct (messageHandlers (this s) !! e'); [done|].
  by rewrite lookup_insert_ne.
Qed.

Lemma off_absent e (h : Handler) (s : Total) :
  h ∉ handlers_of e s → state_after (off e h s) = s.
Proof.
  unfold off, handlers_of. unfold_m. unfold set_this. simpl.
  destruct s as [t b w inv]. simpl.
  destruct (messageHandlers t !! e) as [hs|]; simpl; [|done].
  intros Hh. apply indexOf_None in Hh. by rewrite Hh.
Qed.

Lemma effect_cleanup_id (s : Total) :
  registered_by_effects s → effect_cleanup s = s.
Proof.
  intros Hs. unfold effect_cleanup. generalize events as l.
  induction l as [|e es IH]; [done|].
  cbn [foldl]. rewrite off_absent; [done|].
  intros Hin. by destruct (Hs _ _ Hin) as [Hne _].
Qed.

Lemma handlers_of_subscribe n e (l : list (string * Subscriber)) (s : Total) :
  handlers_of e (foldl (λ s (eh : string * Subscriber),
                          state_after (on eh.1 (n, eh.2) s)) s l) =
  handlers_of e s ++ map (λ eh, (n, eh.2)) (filter (λ eh, eh.1 = e) l).
Proof.
  revert s. induction l as [|[e' sub] l IH]; intros s.
  - by rewrite app_nil_r.
  - cbn [foldl]. rewrite IH, handlers_of_on_any, filter_cons. cbn [fst snd].
    destruct (decide (e' = e)); [|by rewrite app_nil_r].
    by rewrite <- app_assoc.
Qed.

(** The functions one run of [App]'s effect body registers under [e]. *)
Lemma handlers_of_effect e (s : Total) :
  ∃ new, handlers_of e (effect s) = handlers_of e s ++ new ∧
         Forall (λ h, h.2 ≠ Anonymous ∧ h.2 ≠ OnMeetingStatus) new ∧
         (e ∈ events → length new = 1%nat).
Proof.
  unfold effect. eexists. split; [apply handlers_of_subscribe|]. split.
  - apply Forall_fmap, Forall_forall. intros [e' sub] Hin%list_elem_of_filter.
    destruct Hin as [_ Hin]. simpl.
    repeat (apply elem_of_cons in Hin as [Hin|Hin]; [by simplify_eq|]).
    by apply elem_of_nil in Hin.
  - intros He. unfold events in He.
    repeat (apply elem_of_cons in He as [->|He]; [done|]).
    by apply elem_of_nil in He.
Qed.

Lemma handlers_of_render e (s : Total) :
  registered_by_effects s →
  ∃ new, handlers_of e (render s) = handlers_of e s ++ new ∧
         Forall (λ h, h.2 ≠ Anonymous ∧ h.2 ≠ OnMeetingStatus) new ∧
         (e ∈ events → length new = 1%nat).
Proof.
  intros Hs. unfold render. rewrite effect_cleanup_id by done.
  apply (handlers_of_effect e (in_world _ s)).
Qed.

Lemma registered_grow (s s' : Total) :
  (∀ e, ∃ new, handlers_of e s' = handlers_of e s ++ new ∧
               Forall (λ h, h.2 ≠ Anonymous ∧ h.2 ≠ OnMeetingStatus) new ∧
               (e ∈ events → length new = 1%nat)) →
  registered_by_effects s → registered_by_effects s'.
Proof.
  intros Hgrow Hs e h. destruct (Hgrow e) as (new & -> & Hnew & _).
  intros [Hin|Hin]%elem_of_app; [by apply Hs|].
  rewrite Forall_forall in Hnew. destruct (Hnew _ Hin) as [H1 H2].
  split; [done|]. by intros.
Qed.

Lemma registered_same (s s' : Total) :
  same_handlers s s' → registered_by_effects s → registered_by_effects s'.
Proof.
  unfold same_handlers, registered_by_effects, handlers_of.
  intros ->. done.
Qed.

Lemma registered_mounted : registered_by_effects mounted.
Proof.
  unfold mounted.
  eapply registered_grow; [intros e; apply handlers_of_effect|].
  unfold meeting_panel_effect.
  eapply registered_same.
  { apply connect_if_needed_same. }
  intros e h. rewrite handlers_of_on_any. unfold handlers_of at 1. simpl.
  rewrite lookup_empty. simpl.
  destruct (decide ("status" = e)) as [<-|]; [|by intros ?%elem_of_nil].
  intros ->%list_elem_of_singleton. done.
Qed.

Lemma call_returns (h : Handler) data w :
  h.2 ≠ OnMeetingStatus → (call h data w).1 = Ok ().
Proof.
  destruct h as [n sub]. simpl. intros Hsub. unfold call. simpl.
  by destruct sub.
Qed.

Lemma reached_all (hs : list Handler) data w :
  Forall (λ h, h.2 ≠ OnMeetingStatus) hs → reached call hs data w = hs.
Proof.
  revert w. induction hs as [|h hs IH]; intros w Hhs; [done|].
  apply Forall_cons in Hhs as [Hh Hhs]. simpl.
  pose proof (call_returns h data w Hh) as Hr.
  destruct (call h data w) as [r w']. simpl in Hr. subst r.
  by rewrite IH.
Qed.

Section Reachable.
Variable JSON_parse : string → option json.

Lemma step_same_handlers a (s : Total) :
  is_render a = false → same_handlers s (step JSON_parse a s).
Proof.
  intros Ha. unfold same_handlers.
  destruct a as [| | |k ok|k result|r size b|id l| |t|ev]; cbn [step];
    try done.
  - unfold handleToggleConnection.
    by destruct (isConnected (react (world s))).
  - destruct (isConnected (react (world s))); [|done].
    unfold handleToggleMute. by destruct (isMuted (react (world s))).
  - destruct (pending (world s) !! k) as [p|]; [|done].
    set (s1 := in_world (set_pending (delete k)) s).
    change (messageHandlers (this s)) with (messageHandlers (this s1)).
    destruct p as [m start|r|r|c r start|m start|start|cb b]; cbn [continue];
      try done.
    + destruct ok; [|done]. apply (connect_timer s1).
    + destruct ok; [|done].
      destruct r; apply (disconnect_timer s1).
    + destruct ok; [|done]. by destruct r.
    + destruct ok; [|done]. by destruct (c && negb r).
    + by destruct (negb m).
    + destruct ok; [|done]. unfold handleAudioData.
      destruct (cb_isConnected cb && negb (cb_isMuted cb)); [|done].
      unfold sendAudioChunk.
      match goal with
      | |- context [send ?t ?d ?st] => apply (send_timer t d st)
      end.
  - destruct (pending (world s) !! k) as [[]|]; done.
  - unfold ondataavailable.
    destruct (Recorder.recorders _ !! r) as [mr|]; [|done].
    by destruct (_ && _).
  - destruct (deliver call JSON_parse ev s) as [s'|] eqn:Hd; [|done].
    by destruct (deliver_timer _ _ _ _ _ Hd) as [H _].
Qed.

Lemma renders_in_cons a actions :
  renders_in (a :: actions) =
  ((if is_render a then 1 else 0) + renders_in actions)%nat.
Proof.
  unfold renders_in. rewrite filter_cons.
  by destruct (is_render a); simpl.
Qed.

Lemma run_handlers actions e (s : Total) :
  registered_by_effects s →
  e ∈ events →
  registered_by_effects (run JSON_parse actions s) ∧
  length (handlers_of e (run JSON_parse actions s)) =
    (length (handlers_of e s) + renders_in actions)%nat.
Proof.
  intros Hs He. revert s Hs. unfold run.
  induction actions as [|a actions IH]; intros s Hs.
  - split; [done|]. unfold renders_in. simpl. lia.
  - cbn [foldl]. rewrite renders_in_cons.
    destruct (is_render a) eqn:Ha.
    + destruct a; try done. cbn [step].
      assert (Hr : registered_by_effects (render s)).
      { eapply registered_grow; [|done]. intros e'. by apply handlers_of_render. }
      destruct (IH _ Hr) as [H1 H2]. split; [done|]. rewrite H2.
      destruct (handlers_of_render e s Hs) as (new & -> & _ & Hlen).
      rewrite length_app, (Hlen He). lia.
    + pose proof (step_same_handlers a s Ha) as Hsame.
      assert (Hr : registered_by_effects (step JSON_parse a s)).
      { by eapply registered_same. }
      destruct (IH _ Hr) as [H1 H2]. split; [done|]. rewrite H2.
      unfold handlers_of. unfold same_handlers in Hsame. rewrite Hsame. lia.
Qed.

Lemma handlers_of_mounted e :
  e ∈ events → e ≠ "status" → length (handlers_of e mounted) = 1%nat.
Proof.
  intros He Hne. unfold events in He.
  repeat (apply elem_of_cons in He as [->|He];
          [first [vm_compute; reflexivity | destruct Hne; reflexivity]|]).
  exfalso. exact (proj1 (elem_of_nil _) He).
Qed.

(** X4. The cleanup of [App]'s effect passes new [() => {}] functions to
    [off], which finds none of them and removes nothing, and the effect
    body subscribes again after every render. In every state the
    application can reach, each of its seven events has one subscriber more
    per render, and a frame of any of them but 'status' is handled once per
    subscriber: once more than the application has re-rendered. *)
Theorem every_render_subscribes_again actions e data :
  e ∈ events →
  let s := run JSON_parse actions mounted in
  effect_cleanup s = s ∧
  length (handlers_of e s) =
    (length (handlers_of e mounted) + renders_in actions)%nat ∧
  (e ≠ "status" →
   length (calls_of call e data s) = S (renders_in actions)).
Proof.
  intros He. cbv zeta.
  destruct (run_handlers actions e mounted registered_mounted He) as [Hr Hlen].
  split_and!.
  - by apply effect_cleanup_id.
  - done.
  - intros Hne. rewrite calls_of_reached, length_map, reached_all.
    + by rewrite Hlen, handlers_of_mounted.
    + apply Forall_forall. intros h Hin. destruct (Hr _ _ Hin) as [_ H].
      intros Hh. by apply Hne, H.
Qed.

End Reachable.

Lemma every_render_subscribes_again_witness :
  "transcript_update" ∈ events ∧
  length (calls_of call "transcript_update" (VJson (JObj []))
            (run Scenario.JSON_parse
               [Render; ClickToggleConnection; Render] mounted)) = 3%nat.
Proof.
  assert (He : "transcript_update" ∈ events).
  { unfold events.
    repeat first [apply list_elem_of_here | apply list_elem_of_further]. }
  split; [exact He|].
  destruct (every_render_subscribes_again Scenario.JSON_parse
              [Render; ClickToggleConnection; Render] "transcript_update"
              (VJson (JObj [])) He) as (_ & _ & H).
  rewrite H; [reflexivity | discriminate].
Defined.

(** *** What the application shows follows the socket events *)

Lemma forEach_connected (hs : list Handler) data (s : Total) :
  hs ≠ [] → Forall (λ h : Handler, h.2 = OnConnected) hs →
  let w := world (forEach call hs data s).2 in
  isConnected (react w) = true ∧ connectionStatus (react w) = connected.
Proof.
  intros Hne Hall. revert s.
  induction Hall as [|[n sub] hs Hh Hall IH]; intros s; [done|].
  simpl in Hh. subst sub. cbn [forEach]. unfold_m. unfold invoke.
  cbn [call snd fst world].
  destruct hs as [|h hs]; [done|]. apply IH. done.
Qed.

Lemma forEach_disconnected (hs : list Handler) data (s : Total) :
  hs ≠ [] →
  Forall (λ h : Handler, ∃ isRecording, h.2 = OnDisconnected isRecording) hs →
  let w := world (forEach call hs data s).2 in
  isConnected (react w) = false ∧ connectionStatus (react w) = disconnected.
Proof.
  intros Hne Hall. revert s.
  induction Hall as [|[n sub] hs Hh Hall IH]; intros s; [done|].
  simpl in Hh. destruct Hh as [b ->]. cbn [forEach]. unfold_m. unfold invoke.
  cbn [call snd fst world].
  destruct hs as [|h hs]; [by destruct b|]. apply IH. done.
Qed.

Lemma connection_subscribers_same (s s' : Total) :
  same_handlers s s' → connection_subscribers s → connection_subscribers s'.
Proof.
  unfold same_handlers, connection_subscribers, handlers_of. by intros ->.
Qed.

Lemma connection_subscribers_effect (s : Total) :
  (Forall (λ h : Handler, h.2 = OnConnected) (handlers_of "connected" s) ∧
   Forall (λ h : Handler, ∃ isRecording, h.2 = OnDisconnected isRecording)
          (handlers_of "disconnected" s)) →
  connection_subscribers (effect s).
Proof.
  intros [Hc Hd]. unfold connection_subscribers, effect.
  rewrite !handlers_of_subscribe. cbn [filter list_filter map fst snd].
  split; (split; [by intros [_ ?]%app_eq_nil|]); apply Forall_app;
    (split; [done|]); repeat constructor. by eexists.
Qed.

Lemma handlers_of_meeting_panel_effect e (s : Total) :
  handlers_of e (meeting_panel_effect s) =
  handlers_of e s ++ (if decide ("status" = e) then [(0%nat, OnMeetingStatus)]
                      else []).
Proof.
  unfold meeting_panel_effect. rewrite <- handlers_of_on_any.
  pose proof (connect_if_needed_same
                (state_after (on "status" (0%nat, OnMeetingStatus) s))) as Hs.
  exact (f_equal (λ m : gmap string (list Handler), default [] (m !! e)) Hs).
Qed.

Lemma connection_subscribers_mounted : connection_subscribers mounted.
Proof.
  unfold mounted. apply connection_subscribers_effect.
  rewrite !handlers_of_meeting_panel_effect.
  rewrite !decide_False by discriminate.
  unfold handlers_of. cbn. rewrite !lookup_empty. by split.
Qed.

Section Shown.
Variable JSON_parse : string → option json.

Lemma run_connection_subscribers actions (s : Total) :
  registered_by_effects s → connection_subscribers s →
  connection_subscribers (run JSON_parse actions s).
Proof.
  revert s. unfold run.
  induction actions as [|a actions IH]; intros s Hr Hs; [done|].
  cbn [foldl]. destruct (is_render a) eqn:Ha.
  - destruct a; try done. cbn [step]. apply IH.
    + eapply registered_grow; [|done]. intros e. by apply handlers_of_render.
    + unfold render. rewrite effect_cleanup_id by done.
      apply connection_subscribers_effect.
      destruct Hs as [[_ Hc] [_ Hd]]. by split.
  - pose proof (step_same_handlers JSON_parse a s Ha) as Hsame. apply IH.
    + by eapply registered_same.
    + by eapply connection_subscribers_same.
Qed.

(** X22. What the application shows follows the socket events, whoever
    caused them. In every state it can reach, the open of any socket (the
    one [MeetingPanel] opened at mount, one opened by the reconnect timer)
    sets [isConnected] and the status 'connected', and the close of any
    socket sets them back, although no button was pressed. *)
Theorem connection_state_follows_socket_events actions i (s' : Total) :
  let s := run JSON_parse actions mounted in
  (deliver call JSON_parse (EvOpen i) s = Some s' →
   isConnected (react (world s')) = true ∧
   connectionStatus (react (world s')) = connected) ∧
  (deliver call JSON_parse (EvClose i) s = Some s' →
   isConnected (react (world s')) = false ∧
   connectionStatus (react (world s')) = disconnected).
Proof.
  cbv zeta.
  pose proof (run_connection_subscribers actions mounted registered_mounted
                connection_subscribers_mounted) as [[Hc1 Hc2] [Hd1 Hd2]].
  set (s := run JSON_parse actions mounted) in *. clearbody s.
  split.
  - cbn [deliver]. destruct (readyState i s) as [[]|]; try done.
    intros [= <-]. unfold task, state_after, onopen, console_log,
      clearReconnectTimer, emit.
    unfold_m. unfold set_this, set_browser. cbn.
    unfold handlers_of in Hc1, Hc2.
    destruct (reconnectTimer (this s)); cbn;
      (destruct (messageHandlers (this s) !! "connected") as [hs|]; [|done]);
      by apply forEach_connected.
  - cbn [deliver]. unfold task, state_after, onclose, console_log, emit.
    unfold handlers_of in Hd1, Hd2.
    assert (Hgoal : ∀ s0 : Total,
              messageHandlers (this s0) = messageHandlers (this s) →
              let w := world (onclose call s0).2 in
              isConnected (react w) = false ∧
              connectionStatus (react w) = disconnected).
    { intros s0 Hm. unfold onclose, console_log, emit. unfold_m. cbn.
      rewrite Hm.
      destruct (messageHandlers (this s) !! "disconnected") as [hs|]; [|done].
      match goal with
      | |- context [forEach call hs ?d ?st] =>
          pose proof (forEach_disconnected hs d st Hd1 Hd2) as Hw;
          cbv zeta in Hw;
          destruct (forEach call hs d st) as [[[]|e] s1]
      end; [|done].
      cbn [snd] in Hw.
      unfold scheduleReconnect. unfold_m. unfold set_this, set_browser.
      by destruct (reconnectTimer (this s1)). }
    destruct (readyState i s) as [[]|]; try done; intros [= <-];
      by apply Hgoal.
Qed.

End Shown.

End AppMore.

(** ** getMeetingStatus and the panel that polls it *)

Module MeetingProps.
Import Meeting.

Lemma prop_not_null key m : m ≠ JNull → ∃ v, prop key m = Ok v.
Proof. destruct m; try done; by eexists. Qed.

Lemma find_match botId pre m post :
  passed_over botId pre → has_bot_id botId m = true →
  find botId (pre ++ m :: post) = Ok (Some m).
Proof.
  intros Hpre Hm. induction Hpre as [|m0 pre [Hnn Hno] _ IH].
  - destruct m as [| | | | |fields]; try done.
    cbn [app find prop]. by rewrite Hm.
  - cbn [app find].
    destruct (prop_not_null "bot_id" m0 Hnn) as [v ->]. by rewrite Hno.
Qed.

Lemma find_none botId meetings :
  passed_over botId meetings → find botId meetings = Ok None.
Proof.
  intros Hpre. induction Hpre as [|m0 pre [Hnn Hno] _ IH]; simpl; [done|].
  destruct (prop_not_null "bot_id" m0 Hnn) as [v ->]. by rewrite Hno.
Qed.

Lemma find_null botId pre post :
  passed_over botId pre → find botId (pre ++ JNull :: post) = Throw TypeError.
Proof.
  intros Hpre. induction Hpre as [|m0 pre [Hnn Hno] _ IH]; simpl; [done|].
  destruct (prop_not_null "bot_id" m0 Hnn) as [v ->]. by rewrite Hno.
Qed.

Lemma bot_status_of_not_null m : m ≠ JNull → ∃ st, bot_status_of m = Ok st.
Proof. destruct m; try done; by eexists. Qed.

Lemma by_id botId : botId ≠ "" →
  bool_decide (Some botId = None ∨ Some botId = Some "") = false.
Proof.
  intros Hne. apply bool_decide_eq_false_2. intros [?|?]; simplify_eq.
Qed.

(** X10. With a bot id, [getMeetingStatus] answers from the first active
    meeting that has this id, whatever follows it in the list; when no
    meeting has it the answer is the failure 'Bot not found'; and a [null]
    entry that precedes every match makes the call throw. *)
Theorem getMeetingStatus_by_id botId meetings :
  botId ≠ "" →
  (∀ pre m post,
     meetings = pre ++ m :: post →
     passed_over botId pre → has_bot_id botId m = true →
     ∃ st, bot_status_of m = Ok st ∧
           getMeetingStatus (Some botId) (JArr meetings) = Ok (Found st)) ∧
  (passed_over botId meetings →
   getMeetingStatus (Some botId) (JArr meetings)
     = Ok (NotFound "Bot not found")) ∧
  (∀ pre post,
     meetings = pre ++ JNull :: post → passed_over botId pre →
     getMeetingStatus (Some botId) (JArr meetings) = Throw TypeError).
Proof.
  intros Hne. unfold getMeetingStatus. rewrite (by_id _ Hne). simpl.
  split_and!.
  - intros pre m post -> Hpre Hm. rewrite (find_match _ _ _ _ Hpre Hm).
    destruct (bot_status_of_not_null m) as [st Hst]; [by destruct m|].
    exists st. by rewrite Hst.
  - intros Hall. by rewrite find_none.
  - intros pre post -> Hpre. by rewrite find_null.
Qed.

Lemma getMeetingStatus_by_id_witness :
  let first := JObj [("bot_id", JStr "b1"); ("status", JStr "joining_call")] in
  let second := JObj [("bot_id", JStr "b2"); ("status", JStr "in_call_recording")] in
  let again := JObj [("bot_id", JStr "b2"); ("status", JStr "completed")] in
  "b2" ≠ "" ∧
  ∃ st, getMeetingStatus (Some "b2") (JArr [first; second; JNull; again])
          = Ok (Found st) ∧
        status st = Some (JStr "in_call_recording") ∧
        speakers st = JArr [].
Proof.
  cbv zeta.
  assert (H : "b2" ≠ "") by discriminate.
  split; [exact H|].
  destruct (proj1 (getMeetingStatus_by_id "b2" _ H)
              [JObj [("bot_id", JStr "b1"); ("status", JStr "joining_call")]]
              (JObj [("bot_id", JStr "b2"); ("status", JStr "in_call_recording")])
              [JNull; JObj [("bot_id", JStr "b2"); ("status", JStr "completed")]]
              eq_refl)
    as (st & Hst & Hget).
  - repeat constructor; done.
  - reflexivity.
  - exists st. split; [exact Hget|].
    injection Hst as <-. split; reflexivity.
Defined.

Lemma map_bot_status_all meetings :
  JNull ∉ meetings →
  ∃ sts, map_bot_status meetings = Ok sts ∧
         Forall2 (λ m st, bot_status_of m = Ok st) meetings sts.
Proof.
  induction meetings as [|m meetings IH]; intros Hnn.
  - exists []. by split.
  - apply not_elem_of_cons in Hnn as [Hm Hnn].
    destruct (IH Hnn) as (sts & Hsts & Hall).
    destruct (bot_status_of_not_null m) as [st Hst]; [done|].
    exists (st :: sts). simpl. rewrite Hst, Hsts. split; [done|].
    by constructor.
Qed.

Lemma map_bot_status_null meetings :
  JNull ∈ meetings → map_bot_status meetings = Throw TypeError.
Proof.
  induction meetings as [|m meetings IH]; intros Hin.
  - by apply elem_of_nil in Hin.
  - apply elem_of_cons in Hin as [<-|Hin]; [done|].
    simpl. destruct (bot_status_of m) as [st|e] eqn:Hst.
    + by rewrite IH.
    + destruct m; by simplify_eq/=.
Qed.

(** X11. Without a bot id, and also with the empty string (which
    [if (botId)] takes for absent), [getMeetingStatus] answers with one
    summary per active meeting, in the order of the list; a [null] entry
    anywhere makes the call throw. *)
Theorem getMeetingStatus_without_id botId meetings :
  botId = None ∨ botId = Some "" →
  (JNull ∉ meetings →
   ∃ sts, getMeetingStatus botId (JArr meetings) = Ok (All sts) ∧
          Forall2 (λ m st, bot_status_of m = Ok st) meetings sts) ∧
  (JNull ∈ meetings →
   getMeetingStatus botId (JArr meetings) = Throw TypeError).
Proof.
  intros Hid. unfold getMeetingStatus.
  rewrite bool_decide_eq_true_2 by done. split.
  - intros Hnn. destruct (map_bot_status_all meetings Hnn) as (sts & -> & Hall).
    by exists sts.
  - intros Hin. by rewrite map_bot_status_null.
Qed.

Lemma getMeetingStatus_without_id_witness :
  let first := JObj [("bot_id", JStr "b1"); ("status", JStr "joining_call")] in
  (Some "" = None ∨ Some "" = Some "") ∧
  ∃ sts, getMeetingStatus (Some "") (JArr [first; JArr []]) = Ok (All sts) ∧
         length sts = 2%nat.
Proof.
  cbv zeta.
  assert (H : Some "" = None ∨ Some "" = @Some string "") by (by right).
  split; [exact H|].
  destruct (proj1 (getMeetingStatus_without_id (Some "")
              [JObj [("bot_id", JStr "b1"); ("status", JStr "joining_call")];
               JArr []] H))
    as (sts & Hget & Hall).
  - intros Hin. repeat (apply elem_of_cons in Hin as [Hin|Hin]; [done|]).
    by apply elem_of_nil in Hin.
  - exists sts. split; [exact Hget|].
    by rewrite <- (Forall2_length _ _ _ Hall).
Defined.

End MeetingProps.

Module MeetingPanelProps.
Import Meeting MeetingPanel.





(** X13. A tick of the poll changes nothing when no active meeting has
    the bot's id, when a [null] entry precedes every match, and when the
    body of the response is not an array: the panel goes on showing the
    last status it had. *)
Theorem poll_ignores_a_missing_bot b (p : Panel) :
  botId p = Some b → b ≠ "" →
  (∀ meetings, passed_over b meetings → poll (JArr meetings) p = p) ∧
  (∀ pre post, passed_over b pre → poll (JArr (pre ++ JNull :: post)) p = p) ∧
  (∀ body, (∀ meetings, body ≠ JArr meetings) → poll body p = p).
Proof.
  intros Hb Hne. unfold poll. rewrite Hb. cbn beta iota.
  destruct (decide (b = "")) as [?|_]; [done|]. split_and!.
  - intros meetings Hall. unfold getMeetingStatus.
    rewrite (MeetingProps.by_id _ Hne). cbn [default].
    by rewrite MeetingProps.find_none.
  - intros pre post Hpre. unfold getMeetingStatus.
    rewrite (MeetingProps.by_id _ Hne). cbn [default].
    by rewrite MeetingProps.find_null.
  - intros body Hbody. destruct body as [| | | |meetings|]; try done.
    by destruct (Hbody meetings).
Qed.

Lemma poll_ignores_a_missing_bot_witness :
  let p := Build_Panel (Some "b2") (Some (JStr "in_call_recording"))
             "Bot is actively recording the meeting." None JNull (JArr []) JNull in
  botId p = Some "b2" ∧ "b2" ≠ "" ∧
  poll (JArr [JObj [("bot_id", JStr "b1")]]) p = p ∧
  poll (JObj [("meetings", JArr [])]) p = p.
Proof.
  cbv zeta.
  set (p := Build_Panel (Some "b2") (Some (JStr "in_call_recording"))
              "Bot is actively recording the meeting." None JNull (JArr []) JNull).
  assert (H1 : botId p = Some "b2") by reflexivity.
  assert (H2 : "b2" ≠ "") by discriminate.
  split; [exact H1|]. split; [exact H2|].
  destruct (poll_ignores_a_missing_bot "b2" p H1 H2) as (Ha & _ & Hc).
  split.
  - apply Ha. repeat constructor; done.
  - apply Hc. intros meetings. discriminate.
Defined.

(** *** The subscriber of 'status' *)

Lemma substring_all s : String.substring 0 (String.length s) s = s.
Proof. induction s as [|c s IH]; [done|]. simpl. by rewrite IH. Qed.

Lemma prefix_app pat rest : String.prefix pat (pat +:+ rest) = true.
Proof.
  induction pat as [|c pat IH]; [by destruct rest|].
  change (String c pat +:+ rest) with (String c (pat +:+ rest)).
  cbn [String.prefix]. by destruct (Ascii.ascii_dec c c).
Qed.

Lemma substring_app pat rest :
  String.substring (String.length pat)
    (String.length (pat +:+ rest) - String.length pat) (pat +:+ rest) = rest.
Proof.
  induction pat as [|c pat IH].
  - change ("" +:+ rest) with rest. cbn [String.length].
    by rewrite Nat.sub_0_r, substring_all.
  - change (String c pat +:+ rest) with (String c (pat +:+ rest)).
    cbn [String.length String.substring Nat.sub]. exact IH.
Qed.

Lemma replace_app pat rep rest : replace pat rep (pat +:+ rest) = rep +:+ rest.
Proof.
  assert (Hu : ∀ s, replace pat rep s =
                    if String.prefix pat s
                    then rep +:+ String.substring (String.length pat)
                                   (String.length s - String.length pat) s
                    else match s with
                         | EmptyString => EmptyString
                         | String c s' => String c (replace pat rep s')
                         end) by (by intros []).
  by rewrite Hu, prefix_app, substring_app.
Qed.

Lemma prefix_failed reason :
  String.prefix "failed_" ("failed_" +:+ reason) = true.
Proof. apply prefix_app. Qed.

Lemma replace_failed reason : replace "failed_" "" ("failed_" +:+ reason) = reason.
Proof. by rewrite replace_app. Qed.

Lemma status_message_failed reason :
  status_message ("failed_" +:+ reason)
  = Some ("Failed: " +:+ underscores_to_spaces reason).
Proof.
  unfold status_message.
  repeat (rewrite decide_False by discriminate).
  by rewrite prefix_failed, replace_failed.
Qed.

(** X14. A status that starts with 'failed_' is shown as 'Failed: ' and
    the rest of the status with its underscores turned into spaces; the
    panel then shows the failure icon and is no longer in a meeting. *)
Theorem failed_status_is_shown reason fields (p : Panel) :
  obj_get "status" fields = Some (JStr ("failed_" +:+ reason)) →
  let r := handleStatusUpdate (JObj fields) p in
  r.1 = Ok () ∧
  meetingStatus r.2 = Some (JStr ("failed_" +:+ reason)) ∧
  statusMessage r.2 = "Failed: " +:+ underscores_to_spaces reason ∧
  getStatusIcon r.2 = Ok Failed ∧
  isInMeeting r.2 = Ok false.
Proof.
  intros Hs. cbv zeta. unfold handleStatusUpdate. cbn [prop]. rewrite Hs.
  rewrite status_message_failed. cbn [fst snd].
  split_and!; try done.
  - unfold getStatusIcon. cbn [meetingStatus setStatusMessage setMeetingStatus].
    rewrite decide_False by discriminate.
    rewrite decide_False by (intros [?|[?|?]]; discriminate).
    rewrite decide_False by discriminate.
    by rewrite prefix_failed.
  - unfold isInMeeting. cbn [botId meetingStatus setStatusMessage setMeetingStatus].
    destruct (botId p) as [b|]; [|done]. case_decide; [done|].
    by rewrite prefix_failed, andb_false_r.
Qed.

Lemma failed_status_is_shown_witness :
  let fields := [("type", JStr "status");
                 ("status", JStr "failed_waiting_room_timeout")] in
  obj_get "status" fields = Some (JStr ("failed_" +:+ "waiting_room_timeout")) ∧
  statusMessage (handleStatusUpdate (JObj fields) initial).2
    = "Failed: waiting room timeout".
Proof.
  cbv zeta.
  assert (H : obj_get "status" [("type", JStr "status");
                                ("status", JStr "failed_waiting_room_timeout")]
              = Some (JStr ("failed_" +:+ "waiting_room_timeout")))
    by reflexivity.
  split; [exact H|].
  destruct (failed_status_is_shown "waiting_room_timeout" _ initial H)
    as (_ & _ & Hmsg & _).
  exact Hmsg.
Defined.

(** Closes a case in which the subscriber's completion is known. *)
Ltac fin :=
  cbn; split_and!;
  [ split; intros; first [done | discriminate]
  | intros; first [discriminate | by split]
  | intros; first [discriminate | by eexists] ].

(** X15. What makes the subscriber of 'status' throw is a status that is
    truthy and not a string, exactly as the session controller assumes of
    it. The value is stored before the exception leaves the subscriber, so
    the next render of the panel throws in [getStatusIcon]; after a call
    that returns, [getStatusIcon] returns as well. *)
Theorem malformed_status_breaks_the_panel data (p : Panel) :
  data ≠ JNull →
  let r := handleStatusUpdate data p in
  (r.1 = Throw TypeError ↔ App.status_is_truthy_non_string (VJson data) = true) ∧
  (r.1 = Throw TypeError →
   getStatusIcon r.2 = Throw TypeError ∧ statusMessage r.2 = statusMessage p) ∧
  (r.1 = Ok () → ∃ icon, getStatusIcon r.2 = Ok icon).
Proof.
  intros Hnn. cbv zeta.
  unfold handleStatusUpdate, App.status_is_truthy_non_string, getStatusIcon.
  destruct data as [| | | | |fields]; try done; try (by cbn; fin).
  cbn [prop].
  destruct (obj_get "status" fields) as [[|b|n|s|items|fs]|];
    cbn [truthy fst snd].
  - fin.
  - destruct b; fin.
  - destruct (Qeq_bool n 0) eqn:E; cbn; rewrite E; fin.
  - split_and!; [split; intros; discriminate | intros; discriminate|].
    intros _.
    match goal with
    | |- context [meetingStatus ?x] =>
        replace (meetingStatus x) with (Some (JStr s))
          by (by destruct (status_message s))
    end.
    repeat case_decide; try (by eexists).
    destruct (String.prefix "failed_" s); by eexists.
  - fin.
  - fin.
  - fin.
Qed.

Lemma malformed_status_breaks_the_panel_witness :
  let data := JObj [("type", JStr "status"); ("status", JNum 5)] in
  data ≠ JNull ∧
  (handleStatusUpdate data initial).1 = Throw TypeError ∧
  getStatusIcon (handleStatusUpdate data initial).2 = Throw TypeError.
Proof.
  cbv zeta.
  assert (H : JObj [("type", JStr "status"); ("status", JNum 5)] ≠ JNull)
    by discriminate.
  split; [exact H|].
  destruct (malformed_status_breaks_the_panel _ initial H) as (H1 & H2 & _).
  assert (Ht : (handleStatusUpdate
                  (JObj [("type", JStr "status"); ("status", JNum 5)])
                  initial).1 = Throw TypeError).
  { apply H1. reflexivity. }
  split; [exact Ht | exact (proj1 (H2 Ht))].
Defined.

End MeetingPanelProps.

(** ** The visualizer *)

Module VisualizerProps.
Import Recorder Visualizer.

Lemma bar_inside level offsetWidth offsetHeight i random :
  (0 <= level)%Q → (level <= 100)%Q → (0 <= offsetHeight)%Q →
  (0 <= random)%Q → (random < 1)%Q →
  inside offsetHeight (bar level offsetWidth offsetHeight i random).
Proof.
  intros Hl0 Hl1 Hh Hr0 Hr1. unfold inside, bar. cbn [height y].
  assert (Ht0 : (0 <= level / 100)%Q) by (apply Qle_shift_div_l; lra).
  assert (Ht1 : (level / 100 <= 1)%Q) by (apply Qle_shift_div_r; lra).
  set (t := (level / 100)%Q) in *.
  assert (Hrt0 : (0 <= random * t)%Q) by (by apply Qmult_le_0_compat).
  assert (Hrt1 : (random * t <= 1)%Q).
  { apply Qle_trans with (1 * t)%Q; [|lra].
    apply Qmult_le_compat_r; lra. }
  assert (Hp0 : (0 <= random * t * offsetHeight)%Q)
    by (by apply Qmult_le_0_compat).
  assert (Hp1 : (random * t * offsetHeight <= offsetHeight)%Q).
  { apply Qle_trans with (1 * offsetHeight)%Q; [|lra].
    by apply Qmult_le_compat_r. }
  split_and!; [lra | lra | ring].
Qed.

(** X16. For every level in [0,100], which is all the level meter
    produces, each of the 40 bars that [draw] fills stands on the lower
    edge of the canvas and is at most 80% of its height, whatever
    [Math.random] returns; when the visualizer is not active it fills
    nothing. *)
Theorem bars_stay_inside_the_canvas level offsetWidth offsetHeight random :
  in_range level →
  (0 <= offsetHeight)%Q →
  (∀ i : nat, (0 <= random i)%Q ∧ (random i < 1)%Q) →
  Forall (inside offsetHeight)
         (draw true level offsetWidth offsetHeight random) ∧
  length (draw true level offsetWidth offsetHeight random) = bars ∧
  draw false level offsetWidth offsetHeight random = [].
Proof.
  intros Hlev Hh Hrand. destruct level as [l|]; [|done].
  destruct Hlev as [Hl0 Hl1]. unfold draw. split_and!.
  - apply Forall_fmap, Forall_forall. intros i _.
    destruct (Hrand i) as [Hr0 Hr1]. by apply bar_inside.
  - by rewrite length_fmap, length_seq.
  - done.
Qed.

Lemma bars_stay_inside_the_canvas_witness :
  let level := normalizedLevel (replicate frequencyBinCount Byte.xff) in
  in_range level ∧ (0 <= 128)%Q ∧
  (∀ i : nat, (0 <= 1 # 2)%Q ∧ ((1 # 2) < 1)%Q) ∧
  Forall (inside 128) (draw true level 640 128 (λ _, 1 # 2)%Q).
Proof.
  cbv zeta.
  assert (H1 : in_range (normalizedLevel (replicate frequencyBinCount Byte.xff))).
  { apply RecorderProps.normalizedLevel_spec. done. }
  assert (H2 : (0 <= 128)%Q) by done.
  assert (H3 : ∀ i : nat, (0 <= 1 # 2)%Q ∧ ((1 # 2) < 1)%Q) by done.
  split; [exact H1|]. split; [exact H2|]. split; [exact H3|].
  exact (proj1 (bars_stay_inside_the_canvas _ 640 128 (λ _, 1 # 2)%Q H1 H2 H3)).
Defined.

End VisualizerProps.
